(** * Pavement node generator: the grid builder, the numbering step and the
    exporter of [Pavement_GeneratorLabel.py], embedded over binary64 floats.

    Python's [float] is IEEE 754 binary64 with round-to-nearest-even, which
    is what Rocq's primitive floats are.  The embedding therefore computes
    with the very numbers the program computes with: a depth obtained by
    repeated subtraction here is bit for bit the depth Python obtains.

    - A [dict] with string keys is a [gmap string float]; a missing key
      raises [KeyError].
    - The [set] of nodes is the list of its elements without repetition,
      compared by [==] as Python compares tuples of floats.
    - The form, the message boxes, the save dialog and the file system are
      explicit: [on_generate] maps the text of the form, the answer of the
      dialog and the current [world] to the next [world].
    - [float(s)] and the formatting of a float in an f-string are the two
      built-ins the program relies on; they are parameters. *)

From Stdlib Require Import ZArith Floats List String Ascii Lia.
From Stdlib Require Import Permutation Sorted DecimalString DecimalZ.
From stdpp Require Import base option list gmap strings.

Set Warnings "-inexact-float".

Local Open Scope string_scope.
Local Open Scope float_scope.

(** ** Python values and exceptions *)

(** The two exceptions the modelled code can raise: a missing dictionary
    key, and [float()] applied to text that is no number. *)
Inductive exn : Type :=
  | KeyError (key : string)
  | ValueError.

Inductive result (A : Type) : Type :=
  | Ok (a : A)
  | Raise (e : exn).
Arguments Ok {A} a.
Arguments Raise {A} e.

#[global] Instance result_ret : MRet result := fun A a => Ok a.
#[global] Instance result_bind : MBind result := fun A B f r =>
  match r with
  | Ok a => f a
  | Raise e => Raise e
  end.

(** [layers[key]]: subscripting a [dict]. *)
Definition getitem (layers : gmap string float) (key : string) : result float :=
  match layers !! key with
  | Some v => Ok v
  | None => Raise (KeyError key)
  end.

(** A node is the tuple [(x, y, 0.0)]. *)
Abbreviation node := (float * float * float)%type (only parsing).

(** [p == q] on tuples of floats: componentwise IEEE equality, so that
    [0.0 == -0.0] holds and a NaN equals nothing. *)
Definition node_eqb (p q : node) : bool :=
  let '(x1, y1, z1) := p in
  let '(x2, y2, z2) := q in
  (x1 =? x2) && (y1 =? y2) && (z1 =? z2).

(** A Python [set] of nodes, kept as the list of its elements in insertion
    order.  [set_add] is [nodes.add(p)]: nothing changes when an element
    equal to [p] is already there.  Python iterates over a set in an order
    of its own; where that order could matter, the theorems below speak of
    every permutation of the list. *)
Definition set_add (p : node) (nodes : list node) : list node :=
  if existsb (node_eqb p) nodes then nodes else (nodes ++ [p])%list.

(** ** [generate_pavement_nodes] *)

Definition X_COORDS : list float := [0.0; 0.475; 0.725; 2.275; 2.525; 3.0].

(** Lines 21-38: the thickness list of the chosen type.  The last branch is
    a bare [else]: every tag other than the first two takes it. *)
Definition layer_thicknesses (pavement_type : string)
    (layers : gmap string float) : result (list float) :=
  if String.eqb pavement_type "Flexible" then
    surface ← getitem layers "surface";
    binder ← getitem layers "binder";
    base ← getitem layers "base";
    subbase ← getitem layers "subbase";
    mret [surface; binder; base; subbase]
  else if String.eqb pavement_type "Rigid" then
    rigid_slab ← getitem layers "rigid_slab";
    rigid_subbase ← getitem layers "rigid_subbase";
    mret [rigid_slab; rigid_subbase]
  else
    asphalt ← getitem layers "asphalt";
    ctb ← getitem layers "ctb";
    semirigid_subbase ← getitem layers "semirigid_subbase";
    mret [asphalt; ctb; semirigid_subbase].

(** One turn of the loop of lines 41-43 on the pair
    [(current_y, y_coords)]. *)
Definition descend (st : float * list float) (t : float) : float * list float :=
  let '(current_y, y_coords) := st in
  let current_y := current_y - t in
  (current_y, (y_coords ++ [current_y])%list).

(** Lines 19 and 40-47: the depth sequence. *)
Definition build_y_coords (thicknesses : list float) : list float :=
  let '(current_y, y_coords) := fold_left descend thicknesses (0.0, [0.0]) in
  let current_y := current_y - 1.5 in
  (y_coords ++ [current_y])%list.

(** Lines 50-53: the node set. *)
Definition build_nodes (y_coords : list float) : list node :=
  fold_left
    (fun nodes y => fold_left (fun nodes x => set_add (x, y, 0.0) nodes) X_COORDS nodes)
    y_coords [].

(** Lines 56-59. *)
Definition build_col_lines (y_coords : list float) : list (list node) :=
  map (fun x => map (fun y => (x, y, 0.0)) y_coords) X_COORDS.

(** Lines 61-64. *)
Definition build_row_lines (y_coords : list float) : list (list node) :=
  map (fun y => map (fun x => (x, y, 0.0)) X_COORDS) y_coords.

Definition generate_pavement_nodes (pavement_type : string)
    (layers : gmap string float)
    : result (list node * list (list node) * list (list node)) :=
  thicknesses ← layer_thicknesses pavement_type layers;
  let y_coords := build_y_coords thicknesses in
  mret (build_nodes y_coords, build_col_lines y_coords, build_row_lines y_coords).

(** ** Sorting and numbering (lines 173-174 of [on_generate]) *)

(** The sort key [(-p[1], p[0])]. *)
Definition sort_key (p : node) : float * float :=
  let '(x, y, _) := p in (- y, x).

(** [a < b] on two-element tuples, as Python evaluates it: the first
    position where the items are not [==] decides with [<]; tuples equal at
    both positions are not less.  (Python also takes an item to be equal to
    itself without asking [==], which only shows on a NaN.) *)
Definition tuple_lt (a b : float * float) : bool :=
  if negb (fst a =? fst b) then fst a <? fst b
  else if negb (snd a =? snd b) then snd a <? snd b
  else false.

(** [sorted(nodes, key=...)] is a stable sort that only asks [<] of keys.
    On keys without NaN, [tuple_lt] is a strict weak order and every
    sorting algorithm returns the same list, in whatever order the set
    hands out its nodes ([strictly_sorted_unique], [sorted_any_order]); the
    stable insertion sort below computes that list. *)
Fixpoint insert_by_key (p : node) (sorted_nodes : list node) : list node :=
  match sorted_nodes with
  | [] => [p]
  | q :: rest =>
      if tuple_lt (sort_key p) (sort_key q) then p :: q :: rest
      else q :: insert_by_key p rest
  end.

Definition sorted (nodes : list node) : list node :=
  fold_left (fun acc p => insert_by_key p acc) nodes [].

(** [[(i+1, x, y, z) for i, (x, y, z) in enumerate(sorted_nodes)]]. *)
Definition number_nodes (sorted_nodes : list node) : list (Z * float * float * float) :=
  imap (fun i p => let '(x, y, z) := p in ((Z.of_nat i + 1)%Z, x, y, z)) sorted_nodes.

(** ** [write_to_text] *)

(** [str(nid)] for a Python [int]: decimal digits, a leading [-] when
    negative. *)
Definition str_of_int (n : Z) : string := NilZero.string_of_int (Z.to_int n).

Definition newline : string := String "010"%char EmptyString.

Section Builtins.

(** Two built-ins of Python are taken as they come: [float(s)], with [None]
    standing for the [ValueError] it raises on text that is no number, and
    the text an f-string gives a float (its [repr]). *)
Variable float_of_str : string -> option float.
Variable str_of_float : float -> string.

(** The line [f"N,{nid},{x},{y},{z}\n"]. *)
Definition node_line (entry : Z * float * float * float) : string :=
  let '(nid, x, y, z) := entry in
  "N," +:+ str_of_int nid +:+ "," +:+ str_of_float x +:+ "," +:+
  str_of_float y +:+ "," +:+ str_of_float z +:+ newline.

(** The file system is a map from paths to file contents.  Opening with
    mode ["w"] creates or truncates; the writes then append to the file in
    turn.  Paths that cannot be opened are outside the model. *)
Definition write_to_text (files : gmap string string) (file_path : string)
    (nodes_list : list (Z * float * float * float)) : gmap string string :=
  let f := "/PREP7" +:+ newline in
  let f := fold_left (fun f entry => f +:+ node_line entry) nodes_list f in
  <[file_path := f]> files.

(** ** [on_generate] *)

(** The text of the form's variables when the button is pressed. *)
Record form : Type := {
  pavement_type_var : string;
  surface_var : string;
  binder_var : string;
  base_var : string;
  subbase_var : string;
  rigid_slab_var : string;
  rigid_subbase_var : string;
  asphalt_var : string;
  ctb_var : string;
  semirigid_subbase_var : string
}.

(** What the user gets to see, in order; [uncaught] is an exception that
    leaves [on_generate]. *)
Inductive event : Type :=
  | showerror (title message : string)
  | showinfo (title message : string)
  | plot_pavement (nodes : list node) (col_lines row_lines : list (list node))
  | uncaught (e : exn).

Record world : Type := {
  files : gmap string string;
  events : list event
}.

Definition emit (ev : event) (w : world) : world :=
  {| files := files w; events := events w ++ [ev] |}.

Definition to_float (s : string) : result float :=
  match float_of_str s with
  | Some v => Ok v
  | None => Raise ValueError
  end.

(** Lines 146-163: the body of the [try]. *)
Definition gather_layers (gui : form) : result (gmap string float) :=
  let ptype := pavement_type_var gui in
  if String.eqb ptype "Flexible" then
    surface ← to_float (surface_var gui);
    binder ← to_float (binder_var gui);
    base ← to_float (base_var gui);
    subbase ← to_float (subbase_var gui);
    mret (<["surface" := surface]> (<["binder" := binder]>
          (<["base" := base]> (<["subbase" := subbase]> ∅))))
  else if String.eqb ptype "Rigid" then
    rigid_slab ← to_float (rigid_slab_var gui);
    rigid_subbase ← to_float (rigid_subbase_var gui);
    mret (<["rigid_slab" := rigid_slab]> (<["rigid_subbase" := rigid_subbase]> ∅))
  else
    asphalt ← to_float (asphalt_var gui);
    ctb ← to_float (ctb_var gui);
    semirigid_subbase ← to_float (semirigid_subbase_var gui);
    mret (<["asphalt" := asphalt]> (<["ctb" := ctb]>
          (<["semirigid_subbase" := semirigid_subbase]> ∅))).

(** [ptype in ("Flexible", "Rigid", "Semi-Rigid")]. *)
Definition known_type (ptype : string) : bool :=
  String.eqb ptype "Flexible" || String.eqb ptype "Rigid" || String.eqb ptype "Semi-Rigid".

(** [asksaveasfilename] is the path the save dialog returns, empty when the
    user cancels. *)
Definition on_generate (gui : form) (asksaveasfilename : string) (w : world) : world :=
  let ptype := pavement_type_var gui in
  if negb (known_type ptype) then
    emit (showerror "Error" "Please select a pavement type.") w
  else
    match gather_layers gui with
    | Raise ValueError =>
        emit (showerror "Error" "Please enter valid numeric thicknesses.") w
    | Raise e => emit (uncaught e) w
    | Ok layers =>
        match generate_pavement_nodes ptype layers with
        | Raise e => emit (uncaught e) w
        | Ok (nodes, col_lines, row_lines) =>
            let sorted_nodes := sorted nodes in
            let node_list := number_nodes sorted_nodes in
            let file_path := asksaveasfilename in
            if String.eqb file_path "" then
              emit (showinfo "Canceled" "File save canceled.") w
            else
              let w := {| files := write_to_text (files w) file_path node_list;
                          events := events w |} in
              let w := emit (showinfo "Success"
                               ("Pavement nodes saved to:" +:+ newline +:+ file_path)) w in
              emit (plot_pavement nodes col_lines row_lines) w
        end
    end.

(** ** Reading an exported file back

    The program has no reader.  The one below follows the format of the
    file: a header line, then one line [N,id,x,y,z] per node. *)

Fixpoint split_on (sep : ascii) (s : string) : list string :=
  match s with
  | EmptyString => [EmptyString]
  | String c s' =>
      if Ascii.eqb c sep then EmptyString :: split_on sep s'
      else match split_on sep s' with
           | w :: ws => String c w :: ws
           | [] => [String c EmptyString]
           end
  end.

Definition int_of_str (s : string) : option Z :=
  Z.of_int <$> NilZero.int_of_string s.

Definition read_node (line : string) : option (Z * float * float * float) :=
  match split_on ","%char line with
  | [tag; nid; x; y; z] =>
      if String.eqb tag "N" then
        nid ← int_of_str nid;
        x ← float_of_str x;
        y ← float_of_str y;
        z ← float_of_str z;
        Some (nid, x, y, z)
      else None
  | _ => None
  end.

(** The lines of a text, each ended by a newline. *)
Fixpoint ended_lines (pieces : list string) : option (list string) :=
  match pieces with
  | [] => None
  | [rest] => if String.eqb rest "" then Some [] else None
  | line :: pieces => cons line <$> ended_lines pieces
  end.

Definition read_nodes (text : string) : option (list (Z * float * float * float)) :=
  match ended_lines (split_on "010"%char text) with
  | Some (header :: lines) =>
      if String.eqb header "/PREP7" then mapM read_node lines else None
  | _ => None
  end.

(** A float survives the file when its text holds neither separator and
    reads back as the same float. *)
Definition has_char (c : ascii) (s : string) : bool :=
  existsb (Ascii.eqb c) (list_ascii_of_string s).

Definition reads_back (x : float) : Prop :=
  float_of_str (str_of_float x) = Some x /\
  has_char ","%char (str_of_float x) = false /\
  has_char "010"%char (str_of_float x) = false.

Definition entry_reads_back (entry : Z * float * float * float) : Prop :=
  let '(_, x, y, z) := entry in
  reads_back x /\ reads_back y /\ reads_back z.

(** The line of an entry without its newline, and the text that follows
    the header. *)
Definition bare_line (entry : Z * float * float * float) : string :=
  let '(nid, x, y, z) := entry in
  "N," +:+ str_of_int nid +:+ "," +:+ str_of_float x +:+ "," +:+
  str_of_float y +:+ "," +:+ str_of_float z.

Definition body (nodes_list : list (Z * float * float * float)) : string :=
  fold_right (fun entry rest => bare_line entry +:+ String "010"%char rest) "" nodes_list.

(** The fields [on_generate] converts for the selected type. *)
Definition thickness_fields (gui : form) : list string :=
  let ptype := pavement_type_var gui in
  if String.eqb ptype "Flexible" then
    [surface_var gui; binder_var gui; base_var gui; subbase_var gui]
  else if String.eqb ptype "Rigid" then
    [rigid_slab_var gui; rigid_subbase_var gui]
  else
    [asphalt_var gui; ctb_var gui; semirigid_subbase_var gui].

(** The two notices of [on_generate] on invalid input. *)
Definition selection_error : event := showerror "Error" "Please select a pavement type.".

Definition thickness_error : event :=
  showerror "Error" "Please enter valid numeric thicknesses.".

End Builtins.

(** ** Vocabulary of the properties *)

(** The number of layers of each pavement type. *)
Definition layer_count (pavement_type : string) : nat :=
  if String.eqb pavement_type "Flexible" then 4
  else if String.eqb pavement_type "Rigid" then 2
  else 3.

(** [chain rel l]: every element of [l] is in relation [rel] with its
    successor. *)
Fixpoint chain (rel : float -> float -> bool) (l : list float) : bool :=
  match l with
  | a :: (b :: _) as rest => rel a b && chain rel rest
  | _ => true
  end.

Definition strictly_decreasing (l : list float) : Prop :=
  chain (fun a b => b <? a) l = true.

Definition non_increasing (l : list float) : Prop :=
  chain (fun a b => b <=? a) l = true.


(** No two elements are [==]. *)
Definition distinct_nodes (nodes : list node) : Prop :=
  ForallOrdPairs (fun p q => node_eqb p q = false) nodes.

Definition distinct_depths (y_coords : list float) : Prop :=
  ForallOrdPairs (fun a b => (a =? b) = false) y_coords.

Definition entry_id (entry : Z * float * float * float) : Z :=
  let '(nid, _, _, _) := entry in nid.

Definition entry_node (entry : Z * float * float * float) : node :=
  let '(_, x, y, z) := entry in (x, y, z).

(** [p] comes before [q] in the numbering order: deeper rows later, and
    within a row from left to right. *)
Definition before (p q : node) : Prop :=
  let '(x1, y1, _) := p in
  let '(x2, y2, _) := q in
  (y2 <? y1) = true \/ ((y1 =? y2) = true /\ (x1 <? x2) = true).

Definition descending_y_then_ascending_x
    (node_list : list (Z * float * float * float)) : Prop :=
  forall i j e1 e2, (i < j)%nat ->
    node_list !! i = Some e1 -> node_list !! j = Some e2 ->
    before (entry_node e1) (entry_node e2).

(** A small stand-in for the two built-ins, defined on the numbers the form
    shows by default; it serves to run the pipeline on examples. *)
Definition demo_table : list (string * float) :=
  [("0.0", 0.0); ("0.475", 0.475); ("0.725", 0.725); ("2.275", 2.275);
   ("2.525", 2.525); ("3.0", 3.0); ("0.06", 0.06); ("0.08", 0.08);
   ("0.20", 0.20)].

Definition demo_float_of_str (s : string) : option float :=
  snd <$> find (fun e => String.eqb s (fst e)) demo_table.

Definition demo_str_of_float (x : float) : string :=
  match find (fun e => PrimFloat.Leibniz.eqb x (snd e)) demo_table with
  | Some e => fst e
  | None => "nan"
  end.

(** ** Binary64 floats as ordered triples

    The comparison of two floats that are not NaN is the lexicographic
    comparison of their ranks: the sign class, then the exponent and the
    mantissa, both negated for negative numbers. *)
Definition rk (f : spec_float) : Z * Z * Z :=
  match f with
  | S754_nan => (0, 0, 0)%Z
  | S754_zero _ => (0, 0, 0)%Z
  | S754_infinity s => (if s then -2 else 2, 0, 0)%Z
  | S754_finite s m e => if s then (-1, - e, Z.neg m)%Z else (1, e, Z.pos m)%Z
  end.

Definition frk (x : float) : Z * Z * Z := rk (Prim2SF x).

Definition lt3 (a b : Z * Z * Z) : Prop :=
  (a.1.1 < b.1.1 \/
   (a.1.1 = b.1.1 /\ (a.1.2 < b.1.2 \/ (a.1.2 = b.1.2 /\ a.2 < b.2))))%Z.

Definition nonpos (f : spec_float) : Prop :=
  match f with
  | S754_zero _ | S754_infinity true | S754_finite true _ _ => True
  | _ => False
  end.

Definition nonneg (f : spec_float) : Prop :=
  match f with
  | S754_zero _ | S754_infinity false | S754_finite false _ _ => True
  | _ => False
  end.

Definition pos (f : spec_float) : Prop :=
  match f with
  | S754_infinity false | S754_finite false _ _ => True
  | _ => False
  end.

Definition finite_or_zero (f : spec_float) : Prop :=
  match f with
  | S754_zero _ | S754_finite _ _ _ => True
  | _ => False
  end.


(** ** Auxiliary definitions of the proofs *)

(** The depths below a running depth [c]: the sequence without its first
    element. *)
Fixpoint depths_from (c : float) (ts : list float) : list float :=
  match ts with
  | [] => [c - 1.5]
  | t :: ts' => (c - t) :: depths_from (c - t) ts'
  end.

(** The points in the order the loops of lines 51-53 visit them. *)
Definition row (y : float) : list node := map (fun x => (x, y, 0.0)) X_COORDS.

Definition grid (y_coords : list float) : list node := flat_map row y_coords.

Definition add_all (l nodes : list node) : list node :=
  fold_left (fun nodes p => set_add p nodes) l nodes.

Definition covered (p : node) (nodes : list node) : bool := existsb (node_eqb p) nodes.

Definition no_nan (p : node) : Prop :=
  is_nan (fst (fst p)) = false /\ is_nan (snd (fst p)) = false.

(** [sorted] may leave [p] before [q]. *)
Definition key_le (p q : node) : Prop := tuple_lt (sort_key q) (sort_key p) = false.

Definition klt (a b : (Z * Z * Z) * (Z * Z * Z)) : Prop :=
  lt3 (fst a) (fst b) \/ (fst a = fst b /\ lt3 (snd a) (snd b)).

Definition krk (p : node) : (Z * Z * Z) * (Z * Z * Z) :=
  (frk (fst (sort_key p)), frk (snd (sort_key p))).

(** ** Example inputs *)

(** The defaults of the form. *)
Definition flexible_defaults : gmap string float :=
  <["surface" := 0.06]> (<["binder" := 0.08]> (<["base" := 0.20]> (<["subbase" := 0.20]> ∅))).

Definition semirigid_defaults : gmap string float :=
  <["asphalt" := 0.08]> (<["ctb" := 0.20]> (<["semirigid_subbase" := 0.20]> ∅)).

(** A subbase far thinner than the spacing of floats around 1. *)
Definition rigid_thin : gmap string float :=
  <["rigid_slab" := 1.0]> (<["rigid_subbase" := 1e-17]> ∅).

Definition rigid_zero_slab : gmap string float :=
  <["rigid_slab" := 0.0]> (<["rigid_subbase" := 0.2]> ∅).

Definition rigid_negative_slab : gmap string float :=
  <["rigid_slab" := -1.0]> (<["rigid_subbase" := 0.5]> ∅).

(** The form with a surface thickness that is no number. *)
Definition form_abc : form := {|
  pavement_type_var := "Flexible";
  surface_var := "abc";
  binder_var := "0.08";
  base_var := "0.20";
  subbase_var := "0.20";
  rigid_slab_var := "0.20";
  rigid_subbase_var := "0.20";
  asphalt_var := "0.08";
  ctb_var := "0.20";
  semirigid_subbase_var := "0.20"
|}.

Definition no_world : world := {| files := ∅; events := [] |}.

(** ** The widgets and [on_pavement_change] *)

(** The labels and entries of lines 211-296. *)
Inductive widget : Type :=
  | surface_label | surface_entry
  | binder_label | binder_entry
  | base_label | base_entry
  | subbase_label | subbase_entry
  | rigid_slab_label | rigid_slab_entry
  | rigid_subbase_label | rigid_subbase_entry
  | asphalt_label | asphalt_entry
  | ctb_label | ctb_entry
  | semirigid_subbase_label | semirigid_subbase_entry.

#[global] Instance widget_eq_dec : EqDecision widget.
Proof. solve_decision. Defined.

Definition flexible_widgets : list widget :=
  [surface_label; surface_entry; binder_label; binder_entry;
   base_label; base_entry; subbase_label; subbase_entry].

Definition rigid_widgets : list widget :=
  [rigid_slab_label; rigid_slab_entry; rigid_subbase_label; rigid_subbase_entry].

Definition semirigid_widgets : list widget :=
  [asphalt_label; asphalt_entry; ctb_label; ctb_entry;
   semirigid_subbase_label; semirigid_subbase_entry].

(** [tk.Entry(root, textvariable=...)]: the variable an entry edits; a
    label has none. *)
Definition textvariable (w : widget) : option (form -> string) :=
  match w with
  | surface_entry => Some surface_var
  | binder_entry => Some binder_var
  | base_entry => Some base_var
  | subbase_entry => Some subbase_var
  | rigid_slab_entry => Some rigid_slab_var
  | rigid_subbase_entry => Some rigid_subbase_var
  | asphalt_entry => Some asphalt_var
  | ctb_entry => Some ctb_var
  | semirigid_subbase_entry => Some semirigid_subbase_var
  | _ => None
  end.

(** The state of the grid manager is the set of widgets it shows, given by
    its membership test.  [w.grid_remove()] takes [w] off the grid and
    [w.grid()] puts it back where it was. *)
Definition grid_remove (w : widget) (gridded : widget -> bool) : widget -> bool :=
  fun w' => if decide (w' = w) then false else gridded w'.

Definition widget_grid (w : widget) (gridded : widget -> bool) : widget -> bool :=
  fun w' => if decide (w' = w) then true else gridded w'.

(** Lines 120-135.  The last test is an [elif]: a tag that is none of the
    three leaves every widget hidden. *)
Definition on_pavement_change (gui : form) (gridded : widget -> bool) : widget -> bool :=
  let ptype := pavement_type_var gui in
  let gridded :=
    fold_left (fun gridded w => grid_remove w gridded)
      (flexible_widgets ++ rigid_widgets ++ semirigid_widgets)%list gridded in
  if String.eqb ptype "Flexible" then
    fold_left (fun gridded w => widget_grid w gridded) flexible_widgets gridded
  else if String.eqb ptype "Rigid" then
    fold_left (fun gridded w => widget_grid w gridded) rigid_widgets gridded
  else if String.eqb ptype "Semi-Rigid" then
    fold_left (fun gridded w => widget_grid w gridded) semirigid_widgets gridded
  else gridded.

(** ** [plot_pavement] *)

(** The calls to [matplotlib.pyplot], in order. *)
Inductive plt_call : Type :=
  | plt_figure
  | plt_plot (xs ys : list float) (marker : string)
  | plt_annotate (text : string) (xy : float * float) (xytext : Z * Z)
      (textcoords : string) (fontsize : Z)
  | plt_title (label : string)
  | plt_xlabel (label : string)
  | plt_ylabel (label : string)
  | plt_invert_yaxis
  | plt_axis (option : string)
  | plt_grid (visible : bool)
  | plt_show.

Section Formatting.

(** [f"{x:.2f}"]: a float with two decimals, taken as it comes. *)
Variable format_2f : float -> string.

(** Lines 83-113: what the call recorded by the event [plot_pavement]
    does.  [nodes] is the set in the order the loop of line 97 meets its
    elements. *)
Definition plot_pavement_body (nodes : list node) (col_lines row_lines : list (list node))
    : list plt_call :=
  ([plt_figure] ++
   map (fun col => plt_plot (map (fun p => fst (fst p)) col) (map (fun p => snd (fst p)) col) "o")
     col_lines ++
   map (fun row => plt_plot (map (fun p => fst (fst p)) row) (map (fun p => snd (fst p)) row) "o")
     row_lines ++
   map (fun p => let '(x, y, _) := p in
          plt_annotate ("(" +:+ format_2f x +:+ ", " +:+ format_2f y +:+ ")")
            (x, y) (3, 3)%Z "offset points" 8%Z)
     nodes ++
   [plt_title "Pavement Cross-Section Nodes"; plt_xlabel "X (m)";
    plt_ylabel "Y (m, negative down)"; plt_invert_yaxis; plt_axis "equal";
    plt_grid true; plt_show])%list.

End Formatting.

(** ** Further vocabulary *)

(** The keys lines 21-38 subscript, in the order they are read. *)
Definition required_keys (pavement_type : string) : list string :=
  if String.eqb pavement_type "Flexible" then ["surface"; "binder"; "base"; "subbase"]
  else if String.eqb pavement_type "Rigid" then ["rigid_slab"; "rigid_subbase"]
  else ["asphalt"; "ctb"; "semirigid_subbase"].

(** [key not in layers]. *)
Definition missing (layers : gmap string float) (key : string) : bool :=
  match layers !! key with
  | Some _ => false
  | None => true
  end.

(** The depths whose rows enter the set: a depth equal ([==]) to an earlier
    one brings nothing new. *)
Definition keep_depth (kept : list float) (y : float) : list float :=
  if existsb (fun y' => y =? y') kept then kept else (kept ++ [y])%list.

Definition kept_depths (y_coords : list float) : list float :=
  fold_left keep_depth y_coords [].

(** Strictly negative, minus infinity included. *)
Definition neg (f : spec_float) : Prop :=
  match f with
  | S754_infinity true | S754_finite true _ _ => True
  | _ => False
  end.


(** The widgets of a type; none for a tag that is no type. *)
Definition selected_widgets (ptype : string) : list widget :=
  if String.eqb ptype "Flexible" then flexible_widgets
  else if String.eqb ptype "Rigid" then rigid_widgets
  else if String.eqb ptype "Semi-Rigid" then semirigid_widgets
  else [].

(** Every widget of the three lists, in the order of line 123. *)
Definition all_widgets : list widget :=
  (flexible_widgets ++ rigid_widgets ++ semirigid_widgets)%list.

(** The text of the entries shown, in the order of the widget lists. *)
Definition shown_fields (gui : form) (gridded : widget -> bool) : list string :=
  omap (fun w => (fun var => var gui) <$> textvariable w)
    (filter (fun w => gridded w = true) all_widgets).

(** ** Further example inputs *)

(** The form as lines 198-281 create it. *)
Definition initial_form : form := {|
  pavement_type_var := "Flexible";
  surface_var := "0.06";
  binder_var := "0.08";
  base_var := "0.20";
  subbase_var := "0.20";
  rigid_slab_var := "0.20";
  rigid_subbase_var := "0.20";
  asphalt_var := "0.08";
  ctb_var := "0.20";
  semirigid_subbase_var := "0.20"
|}.




(** A Rigid pavement whose slab thickness is NaN, as [float] reads the
    text nan. *)
Definition rigid_nan_slab : gmap string float :=
  <["rigid_slab" := nan]> (<["rigid_subbase" := 0.2]> ∅).

(** ** Proof automation *)

Ltac unfold_result :=
  unfold generate_pavement_nodes in *; unfold layer_thicknesses in *;
  unfold getitem, mbind, result_bind, mret, result_ret in *.

(** * Proofs *)

(** ** Binary64 arithmetic

    The primitive operations are specified by the functions of [SpecFloat];
    the lemmas below are read off those functions. *)
Module Binary64.

Local Open Scope Z_scope.

Lemma SFcompare_rk a b :
  a <> S754_nan -> b <> S754_nan ->
  match SFcompare a b with
  | Some Lt => lt3 (rk a) (rk b)
  | Some Eq => rk a = rk b
  | Some Gt => lt3 (rk b) (rk a)
  | None => False
  end.
Proof.
  intros Ha Hb.
  destruct a as [[]|[]| |[] ma ea], b as [[]|[]| |[] mb eb]; try congruence;
    cbn [SFcompare rk]; unfold lt3; cbn [fst snd]; try lia; try reflexivity.
  - destruct (Z.compare_spec ea eb); try lia.
    rewrite Pos.compare_cont_spec; cbn [Pos.switch_Eq].
    destruct (Pos.compare_spec ma mb); cbn; subst; try reflexivity; lia.
  - destruct (Z.compare_spec ea eb); try lia.
    rewrite Pos.compare_cont_spec; cbn [Pos.switch_Eq].
    destruct (Pos.compare_spec ma mb); cbn; subst; try reflexivity; lia.
Qed.

Lemma fexp_eq e : fexp prec emax e = Z.max (e - 53) (-1074).
Proof. reflexivity. Qed.

Lemma digits2_pos_bounds m :
  2 ^ (Z.pos (digits2_pos m) - 1) <= Z.pos m < 2 ^ Z.pos (digits2_pos m).
Proof.
  induction m as [m IH|m IH|]; cbn [digits2_pos].
  - rewrite Pos2Z.inj_succ, (Pos2Z.inj_xI m).
    replace (Z.succ (Z.pos (digits2_pos m)) - 1) with (Z.succ (Z.pos (digits2_pos m) - 1)) by lia.
    rewrite !Z.pow_succ_r by lia. lia.
  - rewrite Pos2Z.inj_succ, (Pos2Z.inj_xO m).
    replace (Z.succ (Z.pos (digits2_pos m)) - 1) with (Z.succ (Z.pos (digits2_pos m) - 1)) by lia.
    rewrite !Z.pow_succ_r by lia. lia.
  - cbn. lia.
Qed.

Lemma shr_1_m mrs : 0 <= shr_m mrs -> shr_m (shr_1 mrs) = shr_m mrs / 2.
Proof.
  destruct mrs as [m r s]; cbn [shr_m]. intros Hm.
  destruct m as [|[p|p|]|p]; cbn [shr_1 shr_m]; try reflexivity; try lia.
  - rewrite (Pos2Z.inj_xI p). apply Z.div_unique with 1; lia.
  - rewrite (Pos2Z.inj_xO p). apply Z.div_unique with 0; lia.
Qed.

Lemma iter_shr_m p : forall mrs,
  0 <= shr_m mrs -> shr_m (SpecFloat.iter_pos shr_1 p mrs) = shr_m mrs / 2 ^ Z.pos p.
Proof.
  induction p as [p IH|p IH|]; intros mrs Hm; cbn [SpecFloat.iter_pos].
  - assert (H1 : 0 <= shr_m (shr_1 mrs)) by (rewrite shr_1_m by done; apply Z.div_pos; lia).
    assert (H2 : 0 <= shr_m (SpecFloat.iter_pos shr_1 p (shr_1 mrs))).
    { rewrite IH by done. apply Z.div_pos; [done|]. apply Z.pow_pos_nonneg; lia. }
    rewrite IH, IH, shr_1_m by done.
    rewrite !Z.div_div by (try apply Z.pow_pos_nonneg; lia).
    f_equal. rewrite (Pos2Z.inj_xI p).
    replace (2 * Z.pos p + 1) with (1 + Z.pos p + Z.pos p) by lia.
    rewrite !Z.pow_add_r by lia. change (2 ^ 1) with 2. ring.
  - assert (H2 : 0 <= shr_m (SpecFloat.iter_pos shr_1 p mrs)).
    { rewrite IH by done. apply Z.div_pos; [done|]. apply Z.pow_pos_nonneg; lia. }
    rewrite IH, IH by done.
    rewrite !Z.div_div by (try apply Z.pow_pos_nonneg; lia).
    f_equal. rewrite (Pos2Z.inj_xO p).
    replace (2 * Z.pos p) with (Z.pos p + Z.pos p) by lia.
    rewrite !Z.pow_add_r by lia. reflexivity.
  - rewrite shr_1_m by done. reflexivity.
Qed.

Lemma shr_m_of_loc m l : shr_m (shr_record_of_loc m l) = m.
Proof. destruct l as [|[]]; reflexivity. Qed.

(** What [shr_fexp] leaves of a non-negative mantissa. *)
Lemma shr_fexp_m m e l :
  0 <= m ->
  let n := fexp prec emax (Zdigits2 m + e) - e in
  shr_m (shr_fexp prec emax m e l).1 = (if 0 <? n then m / 2 ^ n else m) /\
  (shr_fexp prec emax m e l).2 = (if 0 <? n then e + n else e).
Proof.
  intros Hm n. unfold shr_fexp. fold n. unfold shr.
  destruct n as [|p|p]; cbn [fst snd Z.ltb Z.compare].
  - by rewrite shr_m_of_loc.
  - rewrite iter_shr_m by (by rewrite shr_m_of_loc). by rewrite shr_m_of_loc.
  - by rewrite shr_m_of_loc.
Qed.

Lemma round_nearest_even_ge m l : m <= round_nearest_even m l.
Proof. destruct l as [|[]]; cbn; try destruct (Z.even m); lia. Qed.

Lemma pow2_pos n : 0 <= n -> 0 < 2 ^ n.
Proof. intros. apply Z.pow_pos_nonneg; lia. Qed.

Lemma div_pow2_lower a q n : 0 <= n -> q * 2 ^ n <= a -> q <= a / 2 ^ n.
Proof.
  intros Hn H. apply Z.div_le_lower_bound; [by apply pow2_pos|]. lia.
Qed.

Lemma bounded_canonical mx ex :
  bounded prec emax mx ex = true ->
  fexp prec emax (Z.pos (digits2_pos mx) + ex) = ex /\ -1074 <= ex.
Proof.
  unfold bounded, canonical_mantissa. intros [H _]%andb_prop.
  apply Z.eqb_eq in H. split; [done|]. rewrite fexp_eq in H. lia.
Qed.

(** Rounding a magnitude that is at least a representable number never
    gives less than that number. *)
Lemma binary_round_ge sx M ez mx ex :
  bounded prec emax mx ex = true ->
  ez <= ex ->
  Z.pos mx * 2 ^ (ex - ez) <= Z.pos M ->
  binary_round prec emax sx M ez = S754_infinity sx \/
  exists m' e', binary_round prec emax sx M ez = S754_finite sx m' e' /\
    (ex < e' \/ (e' = ex /\ Z.pos mx <= Z.pos m')).
Proof.
  intros [Hcan Hemin]%bounded_canonical Hez HM.
  pose proof (digits2_pos_bounds M) as [HM1 HM2].
  pose proof (digits2_pos_bounds mx) as [Hx1 Hx2].
  set (d := Z.pos (digits2_pos M)) in *.
  set (dx := Z.pos (digits2_pos mx)) in *.
  assert (Hd : dx + ex <= d + ez).
  { assert (2 ^ (dx - 1 + (ex - ez)) < 2 ^ d) as H%Z.pow_lt_mono_r_iff; [|lia..].
    rewrite Z.pow_add_r by lia.
    pose proof (pow2_pos (ex - ez)). pose proof (pow2_pos (dx - 1)). nia. }
  set (fe := fexp prec emax (d + ez)).
  assert (Hfe : ex <= fe) by (unfold fe; rewrite fexp_eq in *; lia).
  assert (Hfe' : fe = ex \/ (ex < fe /\ fe = d + ez - 53)) by (unfold fe; rewrite fexp_eq in *; lia).
  unfold binary_round. fold d fe.
  assert (Hal : shl_align M ez fe = (M, ez)).
  { unfold shl_align. destruct (fe - ez) eqn:E; try done. lia. }
  rewrite Hal. unfold binary_round_aux.
  pose proof (shr_fexp_m (Z.pos M) ez loc_Exact ltac:(lia)) as [H1m H1e].
  cbn [Zdigits2] in H1m, H1e. fold d fe in H1m, H1e.
  destruct (shr_fexp prec emax (Z.pos M) ez loc_Exact) as [mrs' e'].
  cbn [fst snd] in H1m, H1e.
  assert (He' : e' = fe) by (destruct (0 <? fe - ez) eqn:E; lia).
  clear H1e.
  assert (Hm' : 1 <= shr_m mrs' /\ (fe = ex -> Z.pos mx <= shr_m mrs')).
  { rewrite H1m. destruct (0 <? fe - ez) eqn:E.
    - apply Z.ltb_lt in E. split.
      + apply div_pow2_lower; [lia|]. destruct Hfe' as [->|[_ Hfe']].
        * pose proof (pow2_pos (ex - ez)). nia.
        * rewrite Z.mul_1_l. etransitivity; [|exact HM1].
          apply Z.pow_le_mono_r; lia.
      + intros ->. apply div_pow2_lower; [lia|done].
    - apply Z.ltb_ge in E. assert (fe = ez) as Hz by lia. split; [lia|].
      intros ->. replace (ex - ez) with 0 in HM by lia. rewrite Z.pow_0_r in HM. lia. }
  subst e'. destruct Hm' as [Hm'1 Hm'x].
  pose proof (round_nearest_even_ge (shr_m mrs') (loc_of_shr_record mrs')) as Hr.
  set (mr := round_nearest_even (shr_m mrs') (loc_of_shr_record mrs')) in *.
  destruct mr as [|pr|pr] eqn:Emr; try lia.
  pose proof (shr_fexp_m (Z.pos pr) fe loc_Exact ltac:(lia)) as [H2m H2e].
  cbn [Zdigits2] in H2m, H2e.
  pose proof (digits2_pos_bounds pr) as [Hr1 Hr2].
  set (dr := Z.pos (digits2_pos pr)) in *.
  destruct (shr_fexp prec emax (Z.pos pr) fe loc_Exact) as [mrs'' e''].
  cbn [fst snd] in H2m, H2e.
  assert (Hfin : 1 <= shr_m mrs'' /\ fe <= e'' /\ (e'' = fe -> shr_m mrs'' = Z.pos pr)).
  { rewrite H2m, H2e. rewrite fexp_eq. clear H2m H2e.
    set (n2 := Z.max (dr + fe - 53) (-1074) - fe).
    destruct (0 <? n2) eqn:E2; unfold n2 in *.
    - apply Z.ltb_lt in E2. split; [|split; [lia|intros; exfalso; lia]].
      apply div_pow2_lower; [lia|]. rewrite Z.mul_1_l.
      etransitivity; [|exact Hr1]. apply Z.pow_le_mono_r; lia.
    - split; [lia|]. split; [lia|done]. }
  destruct Hfin as (Hf1 & Hf2 & Hf3). clear H1m H2m H2e.
  destruct (shr_m mrs'') as [|q|q]; try lia.
  destruct (e'' <=? emax - prec); [right|by left].
  exists q, e''. split; [done|].
  destruct (Z.eq_dec e'' ex) as [->|]; [right|left; lia].
  split; [done|]. assert (ex = fe) as Hfx by lia.
  specialize (Hf3 Hfx). specialize (Hm'x (eq_sym Hfx)). lia.
Qed.

Lemma shr_fexp_nonneg m e l : 0 <= m -> 0 <= shr_m (shr_fexp prec emax m e l).1.
Proof.
  intros Hm. destruct (shr_fexp_m m e l Hm) as [-> _].
  destruct (0 <? _) eqn:E; [|done]. apply Z.ltb_lt in E.
  apply Z.div_pos; [done|]. apply pow2_pos. lia.
Qed.

Lemma binary_round_not_nan sx M e : binary_round prec emax sx M e <> S754_nan.
Proof.
  unfold binary_round. destruct (shl_align M e _) as [mz ez].
  unfold binary_round_aux.
  pose proof (shr_fexp_nonneg (Z.pos mz) ez loc_Exact ltac:(lia)) as H1.
  destruct (shr_fexp prec emax (Z.pos mz) ez loc_Exact) as [mrs' e'].
  cbn [fst] in H1.
  pose proof (round_nearest_even_ge (shr_m mrs') (loc_of_shr_record mrs')) as Hr.
  set (mr := round_nearest_even _ _) in *.
  pose proof (shr_fexp_nonneg mr e' loc_Exact ltac:(lia)) as H2.
  destruct (shr_fexp prec emax mr e' loc_Exact) as [mrs'' e''].
  cbn [fst] in H2.
  destruct (shr_m mrs''); [done| |lia]. by destruct (_ <=? _).
Qed.


Lemma iter_xO_pow m d : Z.pos (Pos.iter xO m d) = Z.pos m * 2 ^ Z.pos d.
Proof.
  induction d as [|d IH] using Pos.peano_ind.
  - cbn [Pos.iter]. rewrite (Pos2Z.inj_xO m). change (2 ^ 1) with 2. lia.
  - rewrite Pos.iter_succ, (Pos2Z.inj_xO (Pos.iter xO m d)), IH, Pos2Z.inj_succ.
    rewrite Z.pow_succ_r by lia. ring.
Qed.

Lemma shl_align_le mx ex ez :
  ez <= ex -> Z.pos (shl_align mx ex ez).1 = Z.pos mx * 2 ^ (ex - ez).
Proof.
  intros Hez. unfold shl_align. destruct (ez - ex) as [|d|d] eqn:E; cbn [fst]; try lia.
  - replace (ex - ez) with 0 by lia. rewrite Z.pow_0_r. lia.
  - rewrite iter_xO_pow. do 2 f_equal. lia.
Qed.

Lemma SFcompare_refl f : f <> S754_nan -> SFcompare f f = Some Eq.
Proof.
  destruct f as [[]|[]| |[] m e]; try done; intros _; cbn [SFcompare];
    by rewrite Z.compare_refl, Pos.compare_cont_refl.
Qed.

(** Subtracting a non-negative number from a non-positive one gives a
    non-positive number that is not above the first. *)
Lemma SFsub_le x t :
  valid_binary x = true -> nonpos x -> nonneg t ->
  nonpos (SF64sub x t) /\ SFleb (SF64sub x t) x = true.
Proof.
  intros Hv Hx Ht. unfold SFleb.
  destruct x as [sx|[]| |[] mx ex], t as [st|[]| |[] mt et]; try done;
    try (by destruct sx); try (by destruct sx, st).
  - cbn [SF64sub SFsub]. by rewrite SFcompare_refl.
  - unfold SF64sub, SFsub, cond_Zopp.
    set (ez := Z.min ex et).
    assert (ez <= ex) as Hez by lia.
    pose proof (shl_align_le mx ex ez Hez) as HA.
    destruct (shl_align mx ex ez) as [A eA], (shl_align mt et ez) as [B eB].
    cbn [fst] in *.
    change (- Z.pos A - Z.pos B) with (Z.neg (A + B)). cbn [binary_normalize].
    destruct (binary_round_ge true (A + B) ez mx ex Hv Hez ltac:(lia))
      as [->|(m' & e' & -> & Hge)]; [done|].
    split; [done|]. cbn [SFcompare].
    destruct Hge as [Hlt|[-> Hle]].
    + by apply Z.compare_gt_iff in Hlt as ->.
    + rewrite Z.compare_refl, Pos.compare_cont_spec. cbn [Pos.switch_Eq].
      destruct (Pos.compare_spec m' mx); cbn; try done. lia.
Qed.


Lemma SFsub_not_nan x t :
  x <> S754_nan ->
  finite_or_zero t ->
  SF64sub x t <> S754_nan.
Proof.
  intros Hx Ht.
  destruct x as [sx|sx| |sx mx ex], t as [st|st| |st mt et]; try done;
    try (by destruct sx, st).
  unfold SF64sub, SFsub. destruct (_ - _); cbn [binary_normalize]; try done;
    apply binary_round_not_nan.
Qed.

(** ** The same facts on primitive floats *)

Lemma is_nan_spec x : is_nan x = false <-> Prim2SF x <> S754_nan.
Proof.
  unfold is_nan. rewrite FloatAxioms.eqb_spec. unfold SFeqb.
  destruct (Prim2SF x) eqn:E; try rewrite SFcompare_refl by done; cbn; split; done.
Qed.

Lemma lt3_irrefl a : ~ lt3 a a.
Proof. unfold lt3. lia. Qed.

Lemma lt3_asym a b : lt3 a b -> ~ lt3 b a.
Proof. unfold lt3. lia. Qed.

Lemma lt3_trans a b c : lt3 a b -> lt3 b c -> lt3 a c.
Proof. unfold lt3. lia. Qed.

Lemma lt3_total a b : lt3 a b \/ a = b \/ lt3 b a.
Proof.
  destruct a as [[a1 a2] a3], b as [[b1 b2] b3]. unfold lt3; cbn [fst snd].
  destruct (Z.lt_total a1 b1) as [?|[->|?]]; [lia| |lia].
  destruct (Z.lt_total a2 b2) as [?|[->|?]]; [lia| |lia].
  destruct (Z.lt_total a3 b3) as [?|[->|?]]; [lia| |lia].
  right; by left.
Qed.

Lemma ltb_rk x y :
  is_nan x = false -> is_nan y = false ->
  (x <? y)%float = true <-> lt3 (frk x) (frk y).
Proof.
  intros Hx%is_nan_spec Hy%is_nan_spec. rewrite ltb_spec. unfold SFltb, frk.
  pose proof (SFcompare_rk _ _ Hx Hy) as H.
  destruct (SFcompare _ _) as [[]|]; try done.
  - rewrite H. split; [done|]. by intros ?%lt3_irrefl.
  - split; [done|]. by intros ?%lt3_asym.
Qed.

Lemma eqb_rk x y :
  is_nan x = false -> is_nan y = false ->
  (x =? y)%float = true <-> frk x = frk y.
Proof.
  intros Hx%is_nan_spec Hy%is_nan_spec. rewrite FloatAxioms.eqb_spec. unfold SFeqb, frk.
  pose proof (SFcompare_rk _ _ Hx Hy) as H.
  destruct (SFcompare _ _) as [[]|]; try done.
  - split; [done|]. intros E. rewrite E in H. by apply lt3_irrefl in H.
  - split; [done|]. intros E. rewrite E in H. by apply lt3_irrefl in H.
Qed.

Lemma leb_rk x y :
  is_nan x = false -> is_nan y = false ->
  (x <=? y)%float = true <-> ~ lt3 (frk y) (frk x).
Proof.
  intros Hx%is_nan_spec Hy%is_nan_spec. rewrite leb_spec. unfold SFleb, frk.
  pose proof (SFcompare_rk _ _ Hx Hy) as H.
  destruct (SFcompare _ _) as [[]|]; try done.
  - rewrite H. split; [|done]. intros _. apply lt3_irrefl.
  - split; [|done]. intros _. by apply lt3_asym.
Qed.

Lemma eqb_nan_l x y : is_nan x = true -> (x =? y)%float = false.
Proof.
  unfold is_nan. rewrite !FloatAxioms.eqb_spec. unfold SFeqb.
  destruct (Prim2SF x); try rewrite SFcompare_refl by done; done.
Qed.

Lemma eqb_nan_r x y : is_nan y = true -> (x =? y)%float = false.
Proof.
  unfold is_nan. rewrite !FloatAxioms.eqb_spec. unfold SFeqb.
  destruct (Prim2SF y); try rewrite SFcompare_refl by done; try done.
  by destruct (Prim2SF x).
Qed.

Lemma eqb_not_nan x y : (x =? y)%float = true -> is_nan x = false /\ is_nan y = false.
Proof.
  intros H. split.
  - destruct (is_nan x) eqn:E; [|done]. by rewrite eqb_nan_l in H.
  - destruct (is_nan y) eqn:E; [|done]. by rewrite eqb_nan_r in H.
Qed.

Lemma eqb_sym x y : (x =? y)%float = (y =? x)%float.
Proof.
  destruct (is_nan x) eqn:Ex; [by rewrite (eqb_nan_l x y), (eqb_nan_r y x)|].
  destruct (is_nan y) eqn:Ey; [by rewrite (eqb_nan_r x y), (eqb_nan_l y x)|].
  apply eq_true_iff_eq. rewrite !eqb_rk by done. split; done.
Qed.

Lemma eqb_trans x y z :
  (x =? y)%float = true -> (y =? z)%float = true -> (x =? z)%float = true.
Proof.
  intros H1 H2.
  destruct (eqb_not_nan _ _ H1) as [Hx Hy], (eqb_not_nan _ _ H2) as [_ Hz].
  rewrite eqb_rk in * by done. congruence.
Qed.

Lemma opp_is_nan x : is_nan (- x) = is_nan x.
Proof.
  unfold is_nan. rewrite !FloatAxioms.eqb_spec, opp_spec. unfold SFeqb.
  destruct (Prim2SF x) as [[]|[]| |[] m e]; try done;
    cbn [SFopp negb]; by rewrite !SFcompare_refl.
Qed.

Lemma opp_rk x : frk (- x) = ((- (frk x).1.1)%Z, (- (frk x).1.2)%Z, (- (frk x).2)%Z).
Proof.
  unfold frk. rewrite opp_spec.
  destruct (Prim2SF x) as [[]|[]| |[] m e]; cbn; try done. by rewrite Z.opp_involutive.
Qed.

Lemma leb_zero_nonpos x : (x <=? 0)%float = true <-> nonpos (Prim2SF x).
Proof.
  rewrite leb_spec. change (Prim2SF 0) with (S754_zero false).
  by destruct (Prim2SF x) as [[]|[]| |[] m e].
Qed.

Lemma zero_leb_nonneg x : (0 <=? x)%float = true <-> nonneg (Prim2SF x).
Proof.
  rewrite leb_spec. change (Prim2SF 0) with (S754_zero false).
  by destruct (Prim2SF x) as [[]|[]| |[] m e].
Qed.

Lemma zero_ltb_pos x : (0 <? x)%float = true <-> pos (Prim2SF x).
Proof.
  rewrite ltb_spec. change (Prim2SF 0) with (S754_zero false).
  by destruct (Prim2SF x) as [[]|[]| |[] m e].
Qed.

Lemma sub_le_self c t :
  (c <=? 0)%float = true -> (0 <=? t)%float = true ->
  (c - t <=? c)%float = true /\ (c - t <=? 0)%float = true.
Proof.
  rewrite !leb_zero_nonpos, zero_leb_nonneg, leb_spec, sub_spec.
  intros Hc Ht. destruct (SFsub_le _ _ (Prim2SF_valid c) Hc Ht). done.
Qed.




Lemma is_finite_spec t :
  is_finite t = true -> finite_or_zero (Prim2SF t).
Proof.
  unfold is_finite, is_infinity, is_nan. rewrite !FloatAxioms.eqb_spec, abs_spec.
  change (Prim2SF infinity) with (S754_infinity false).
  by destruct (Prim2SF t) as [[]|[]| |[] m e].
Qed.

Lemma sub_not_nan x t :
  is_nan x = false -> is_finite t = true -> is_nan (x - t) = false.
Proof.
  rewrite !is_nan_spec, sub_spec. intros Hx Ht%is_finite_spec.
  by apply SFsub_not_nan.
Qed.

End Binary64.

(** ** The depth sequence *)

Lemma fold_descend ts : forall c ys,
  (let '(c', ys') := fold_left descend ts (c, ys) in (ys' ++ [c' - 1.5])%list)
  = (ys ++ depths_from c ts)%list.
Proof.
  induction ts as [|t ts IH]; intros c ys; cbn [fold_left depths_from descend].
  - done.
  - rewrite IH. by rewrite <- app_assoc.
Qed.

Lemma build_y_coords_eq ts : build_y_coords ts = 0.0 :: depths_from 0.0 ts.
Proof. unfold build_y_coords. apply (fold_descend ts 0.0 [0.0]). Qed.

Lemma length_depths_from ts : forall c, length (depths_from c ts) = S (length ts).
Proof. induction ts as [|t ts IH]; intros c; cbn; [done|by rewrite IH]. Qed.


Lemma depths_from_nonpos ts : forall c,
  (c <=? 0) = true -> Forall (fun t => (0 <=? t) = true) ts ->
  Forall (fun y => (y <=? 0) = true) (depths_from c ts) /\
  non_increasing (c :: depths_from c ts).
Proof.
  unfold non_increasing.
  induction ts as [|t ts IH]; intros c Hc Hts; cbn [depths_from].
  - destruct (Binary64.sub_le_self c 1.5 Hc eq_refl) as [H1 H2].
    split; [by repeat constructor|]. cbn [chain]. by rewrite H1.
  - apply Forall_cons in Hts as [Ht Hts].
    destruct (Binary64.sub_le_self c t Hc Ht) as [H1 H2].
    destruct (IH (c - t) H2 Hts) as [IH1 IH2].
    split; [by constructor|].
    change (chain (fun a b => b <=? a) (c :: (c - t) :: depths_from (c - t) ts))
      with ((c - t <=? c) && chain (fun a b => b <=? a) ((c - t) :: depths_from (c - t) ts)).
    by rewrite H1, IH2.
Qed.



Lemma ltb_leb_zero t : (0 <? t) = true -> (0 <=? t) = true.
Proof.
  rewrite Binary64.zero_ltb_pos, Binary64.zero_leb_nonneg.
  by destruct (Prim2SF t) as [[]|[]| |[] m e].
Qed.

Lemma layer_thicknesses_length pt layers ts :
  layer_thicknesses pt layers = Ok ts -> length ts = layer_count pt.
Proof.
  unfold layer_count. unfold_result. intros H.
  repeat case_match; by simplify_eq.
Qed.

Lemma generate_pavement_nodes_eq pt layers ts :
  layer_thicknesses pt layers = Ok ts ->
  generate_pavement_nodes pt layers =
    Ok (build_nodes (build_y_coords ts), build_col_lines (build_y_coords ts),
        build_row_lines (build_y_coords ts)).
Proof. unfold generate_pavement_nodes. by intros ->. Qed.




(** ** The node set *)

Lemma node_eqb_sym p q : node_eqb p q = node_eqb q p.
Proof.
  destruct p as [[x1 y1] z1], q as [[x2 y2] z2]. cbn.
  by rewrite (Binary64.eqb_sym x1), (Binary64.eqb_sym y1), (Binary64.eqb_sym z1).
Qed.

Lemma node_eqb_trans p q r :
  node_eqb p q = true -> node_eqb q r = true -> node_eqb p r = true.
Proof.
  destruct p as [[x1 y1] z1], q as [[x2 y2] z2], r as [[x3 y3] z3]. cbn.
  rewrite !andb_true_iff. intros [[??]?] [[??]?].
  repeat split; eapply Binary64.eqb_trans; eassumption.
Qed.

Lemma add_all_app l1 l2 nodes : add_all (l1 ++ l2) nodes = add_all l2 (add_all l1 nodes).
Proof. apply fold_left_app. Qed.

Lemma add_all_cons p l nodes : add_all (p :: l) nodes = add_all l (set_add p nodes).
Proof. done. Qed.

Lemma build_nodes_eq y_coords : build_nodes y_coords = add_all (grid y_coords) [].
Proof.
  unfold build_nodes. generalize (@nil node).
  induction y_coords as [|y ys IH]; intros nodes; [done|].
  cbn [fold_left grid flat_map]. rewrite add_all_app, IH. done.
Qed.

Lemma covered_app p l1 l2 : covered p (l1 ++ l2) = covered p l1 || covered p l2.
Proof. apply existsb_app. Qed.

Lemma set_add_prefix p nodes : exists l, set_add p nodes = (nodes ++ l)%list /\ (length l <= 1)%nat.
Proof.
  unfold set_add. destruct (existsb _ _).
  - exists []. rewrite app_nil_r. split; [done|cbn; lia].
  - exists [p]. split; [done|cbn; lia].
Qed.

Lemma add_all_prefix l : forall nodes,
  exists l', add_all l nodes = (nodes ++ l')%list /\ (length l' <= length l)%nat.
Proof.
  induction l as [|p l IH]; intros nodes; cbn [add_all fold_left].
  - exists []. rewrite app_nil_r. split; [done|cbn; lia].
  - destruct (set_add_prefix p nodes) as (l1 & -> & H1).
    destruct (IH (nodes ++ l1)%list) as (l2 & E & H2). fold (add_all l (nodes ++ l1)) .
    exists (l1 ++ l2)%list. rewrite E, <- app_assoc. split; [done|].
    rewrite length_app. cbn [length]. lia.
Qed.

Lemma add_all_length l nodes : (length (add_all l nodes) <= length nodes + length l)%nat.
Proof.
  destruct (add_all_prefix l nodes) as (l' & -> & H). rewrite length_app. lia.
Qed.

Lemma set_add_In q p nodes : In q (set_add p nodes) -> In q nodes \/ q = p.
Proof.
  unfold set_add. destruct (existsb _ _); [by left|].
  rewrite in_app_iff. cbn. intros [H|[<-|[]]]; auto.
Qed.

Lemma add_all_In q l : forall nodes, In q (add_all l nodes) -> In q nodes \/ In q l.
Proof.
  induction l as [|p l IH]; intros nodes; cbn [add_all fold_left]; [by left|].
  intros [H|H]%IH; [|right; by right].
  apply set_add_In in H as [H| ->]; [by left|right; by left].
Qed.

Lemma ForallOrdPairs_snoc {A} (R : A -> A -> Prop) l a :
  ForallOrdPairs R l -> Forall (fun b => R b a) l -> ForallOrdPairs R (l ++ [a]).
Proof.
  induction 1 as [|b l Hb Hl IH]; intros Ha; cbn.
  - by repeat constructor.
  - apply Forall_cons in Ha as [Hba Ha]. constructor; [|by apply IH].
    apply Forall_app. split; [done|by constructor].
Qed.

Lemma set_add_distinct p nodes : distinct_nodes nodes -> distinct_nodes (set_add p nodes).
Proof.
  unfold distinct_nodes, set_add. intros Hd.
  destruct (existsb _ _) eqn:E; [done|].
  apply ForallOrdPairs_snoc; [done|].
  apply List.Forall_forall. intros q Hq. rewrite node_eqb_sym.
  destruct (node_eqb p q) eqn:Epq; [|done].
  assert (existsb (node_eqb p) nodes = true) by (apply existsb_exists; by exists q).
  congruence.
Qed.

Lemma add_all_distinct l : forall nodes,
  distinct_nodes nodes -> distinct_nodes (add_all l nodes).
Proof.
  induction l as [|p l IH]; intros nodes Hd; cbn [add_all fold_left]; [done|].
  by apply IH, set_add_distinct.
Qed.

Lemma build_nodes_distinct y_coords : distinct_nodes (build_nodes y_coords).
Proof. rewrite build_nodes_eq. apply add_all_distinct. constructor. Qed.

Lemma length_grid y_coords : length (grid y_coords) = (6 * length y_coords)%nat.
Proof.
  induction y_coords as [|y ys IH]; [done|].
  cbn [grid flat_map]. rewrite length_app. fold (grid ys). rewrite IH.
  unfold row. rewrite length_map. cbn [length X_COORDS]. lia.
Qed.

Lemma build_nodes_length y_coords : (length (build_nodes y_coords) <= 6 * length y_coords)%nat.
Proof.
  rewrite build_nodes_eq, <- length_grid. apply (add_all_length _ []).
Qed.

Lemma In_grid p y_coords :
  In p (grid y_coords) <-> exists x y, p = (x, y, 0.0) /\ In x X_COORDS /\ In y y_coords.
Proof.
  unfold grid, row. rewrite in_flat_map. split.
  - intros (y & Hy & (x & <- & Hx)%in_map_iff). eauto.
  - intros (x & y & -> & Hx & Hy). exists y. split; [done|]. apply in_map_iff. eauto.
Qed.

Lemma In_build_nodes p y_coords :
  In p (build_nodes y_coords) ->
  exists x y, p = (x, y, 0.0) /\ In x X_COORDS /\ In y y_coords.
Proof.
  rewrite build_nodes_eq. intros [[]|H]%add_all_In. by apply In_grid.
Qed.

(** When no two points of [l] are equal, and none equals a point already
    there, [add_all] appends [l] as it is. *)
Lemma add_all_fresh l : forall nodes,
  ForallOrdPairs (fun p q => node_eqb p q = false) l ->
  Forall (fun q => covered q nodes = false) l ->
  add_all l nodes = (nodes ++ l)%list.
Proof.
  induction l as [|p l IH]; intros nodes Hd Hc; cbn [add_all fold_left].
  - by rewrite app_nil_r.
  - inversion Hd as [|? ? Hp Hl]; subst. apply Forall_cons in Hc as [Hpc Hc].
    unfold set_add. unfold covered in Hpc. rewrite Hpc.
    fold (add_all l (nodes ++ [p])). rewrite IH, <- app_assoc; [done..|].
    apply List.Forall_forall. intros q Hq. rewrite covered_app.
    rewrite List.Forall_forall in Hc. rewrite (Hc q Hq). cbn.
    rewrite List.Forall_forall in Hp. by rewrite node_eqb_sym, (Hp q Hq).
Qed.

Lemma X_COORDS_distinct : ForallOrdPairs (fun a b => (a =? b) = false) X_COORDS.
Proof. unfold X_COORDS. repeat constructor. Qed.

Lemma ForallOrdPairs_app {A} (R : A -> A -> Prop) l1 l2 :
  ForallOrdPairs R l1 -> ForallOrdPairs R l2 ->
  (forall a b, In a l1 -> In b l2 -> R a b) ->
  ForallOrdPairs R (l1 ++ l2).
Proof.
  induction 1 as [|a l1 Ha Hl IH]; intros H2 H12; [done|]. cbn.
  constructor.
  - apply Forall_app. split; [done|]. apply List.Forall_forall. intros b Hb.
    apply H12; [by left|done].
  - apply IH; [done|]. intros ????. apply H12; [by right|done].
Qed.

Lemma ForallOrdPairs_impl {A} (R R' : A -> A -> Prop) l :
  (forall a b, R a b -> R' a b) -> ForallOrdPairs R l -> ForallOrdPairs R' l.
Proof.
  intros HR. induction 1 as [|a l Ha Hl IH]; constructor; [|done].
  eapply Forall_impl; [exact Ha|]. apply HR.
Qed.

Lemma ForallOrdPairs_map {A B} (R : B -> B -> Prop) (f : A -> B) l :
  ForallOrdPairs (fun a b => R (f a) (f b)) l -> ForallOrdPairs R (map f l).
Proof.
  induction 1 as [|a l Ha Hl IH]; cbn; constructor; [|done].
  apply Forall_map. done.
Qed.

Lemma grid_distinct y_coords :
  distinct_depths y_coords -> ForallOrdPairs (fun p q => node_eqb p q = false) (grid y_coords).
Proof.
  induction 1 as [|y ys Hy Hys IH]; [constructor|].
  cbn [grid flat_map]. apply ForallOrdPairs_app; [|done|].
  - unfold row. apply ForallOrdPairs_map.
    eapply ForallOrdPairs_impl; [|apply X_COORDS_distinct].
    intros a b Hab. cbn. by rewrite Hab.
  - intros a b (x & <- & Hx)%in_map_iff (x' & y' & -> & Hx' & Hy')%In_grid.
    cbn. rewrite List.Forall_forall in Hy. rewrite (Hy y' Hy'). by rewrite andb_false_r.
Qed.

Lemma build_nodes_grid y_coords :
  distinct_depths y_coords -> build_nodes y_coords = grid y_coords.
Proof.
  intros Hd. rewrite build_nodes_eq, add_all_fresh; [done|by apply grid_distinct|].
  by apply List.Forall_forall.
Qed.

Lemma covered_set_add q p nodes :
  node_eqb q p = true -> covered q (set_add p nodes) = true.
Proof.
  intros Hqp. unfold set_add. destruct (existsb (node_eqb p) nodes) eqn:E.
  - apply existsb_exists in E as (r & Hr & Hpr). apply existsb_exists.
    exists r. split; [done|]. by eapply node_eqb_trans.
  - rewrite covered_app. cbn. by rewrite Hqp, orb_true_r.
Qed.

Lemma covered_add_all q l nodes : covered q nodes = true -> covered q (add_all l nodes) = true.
Proof.
  intros H. destruct (add_all_prefix l nodes) as (l' & -> & _).
  by rewrite covered_app, H.
Qed.

(** A point equal to an earlier one adds nothing to the set. *)
Lemma add_all_repeat l1 p l2 q l3 nodes :
  node_eqb q p = true ->
  (length (add_all (l1 ++ p :: l2 ++ q :: l3) nodes)
   < length nodes + length (l1 ++ p :: l2 ++ q :: l3))%nat.
Proof.
  intros Hqp.
  rewrite add_all_app, add_all_cons, add_all_app, add_all_cons.
  set (s1 := set_add p (add_all l1 nodes)).
  assert (Hc : covered q (add_all l2 s1) = true) by by apply covered_add_all, covered_set_add.
  unfold set_add at 1. unfold covered in Hc. rewrite Hc.
  pose proof (add_all_length l3 (add_all l2 s1)).
  pose proof (add_all_length l2 s1).
  pose proof (add_all_length l1 nodes).
  assert (length s1 <= length (add_all l1 nodes) + 1)%nat.
  { unfold s1. destruct (set_add_prefix p (add_all l1 nodes)) as (l' & -> & ?).
    rewrite length_app. lia. }
  rewrite !length_app. cbn [length]. rewrite length_app. cbn [length]. lia.
Qed.

Lemma grid_app ys1 ys2 : grid (ys1 ++ ys2) = (grid ys1 ++ grid ys2)%list.
Proof. apply flat_map_app. Qed.

Lemma grid_cons y ys : grid (y :: ys) = (row y ++ grid ys)%list.
Proof. done. Qed.

Lemma grid_two ys1 a ys2 b ys3 :
  grid (ys1 ++ a :: ys2 ++ b :: ys3) =
  (grid ys1 ++ (0, a, 0) :: (tail (row a) ++ grid ys2) ++ (0, b, 0) :: (tail (row b) ++ grid ys3))%list.
Proof.
  rewrite grid_app, grid_cons, grid_app, grid_cons.
  change (row a) with ((0, a, 0) :: tail (row a)).
  change (row b) with ((0, b, 0) :: tail (row b)).
  cbn [tail]. by rewrite <- !app_comm_cons, <- !app_assoc.
Qed.

Lemma build_nodes_repeat y_coords i j a b :
  (i < j)%nat -> y_coords !! i = Some a -> y_coords !! j = Some b ->
  (a =? b) = true ->
  (length (build_nodes y_coords) < 6 * length y_coords)%nat.
Proof.
  intros Hij Ha Hb Hab.
  rewrite <- length_grid, build_nodes_eq.
  rewrite <- (take_drop_middle _ _ _ Ha).
  assert (Hb' : drop (S i) y_coords !! (j - S i)%nat = Some b).
  { rewrite lookup_drop. rewrite <- Hb. f_equal. lia. }
  rewrite <- (take_drop_middle _ _ _ Hb'), grid_two.
  apply (add_all_repeat _ (0, a, 0) _ (0, b, 0) _ []).
  cbn. by rewrite Binary64.eqb_sym, Hab.
Qed.

(** C3, counterexample.  Rigid with a slab of thickness 0.0: the depth
    sequence [0.0; 0.0; -0.2; -1.7] has 4 elements and the node set has 18
    nodes, not 24. *)
Lemma C3_counterexample :
  exists nodes cols rows,
    layer_thicknesses "Rigid" rigid_zero_slab = Ok [0.0; 0.2] /\
    generate_pavement_nodes "Rigid" rigid_zero_slab = Ok (nodes, cols, rows) /\
    length (build_y_coords [0.0; 0.2]) = 4%nat /\
    length nodes = 18%nat.
Proof.
  eexists _, _, _. split; [by vm_compute|]. split; [by vm_compute|]. split; by vm_compute.
Qed.

(** C3, amended.  For every valid input the nodes of the returned set are
    pairwise distinct and there are at most 6 x (depth-sequence length) of
    them; there are exactly that many whenever the depths are pairwise
    different. *)
Theorem C3_node_count pt layers ts nodes cols rows :
  layer_thicknesses pt layers = Ok ts ->
  generate_pavement_nodes pt layers = Ok (nodes, cols, rows) ->
  let y_coords := build_y_coords ts in
  distinct_nodes nodes /\
  (length nodes <= 6 * length y_coords)%nat /\
  (distinct_depths y_coords -> length nodes = (6 * length y_coords)%nat).
Proof.
  intros Hts Hg y_coords. unfold generate_pavement_nodes in Hg. rewrite Hts in Hg.
  injection Hg as <- _ _. fold y_coords.
  split; [apply build_nodes_distinct|]. split; [apply build_nodes_length|].
  intros Hd. by rewrite build_nodes_grid, length_grid.
Qed.

(** C3 on the defaults of the Flexible type. *)
Lemma C3_node_count_witness :
  let ts := [0.06; 0.08; 0.20; 0.20] in
  let y_coords := build_y_coords ts in
  let nodes := build_nodes y_coords in
  distinct_nodes nodes /\
  (length nodes <= 6 * length y_coords)%nat /\
  (distinct_depths y_coords -> length nodes = (6 * length y_coords)%nat).
Proof.
  apply (C3_node_count "Flexible" flexible_defaults [0.06; 0.08; 0.20; 0.20] _
           (build_col_lines (build_y_coords [0.06; 0.08; 0.20; 0.20]))
           (build_row_lines (build_y_coords [0.06; 0.08; 0.20; 0.20]))).
  - vm_compute. reflexivity.
  - vm_compute. reflexivity.
Defined.

(** ** Sorting *)

Lemma insert_by_key_perm p l : Permutation (insert_by_key p l) (p :: l).
Proof.
  induction l as [|q l IH]; cbn [insert_by_key]; [done|].
  destruct (tuple_lt _ _); [done|]. rewrite IH. apply perm_swap.
Qed.

Lemma sorted_perm l : Permutation (sorted l) l.
Proof.
  unfold sorted. rewrite <- (app_nil_l l) at 2. generalize (@nil node).
  induction l as [|p l IH]; intros acc; cbn [fold_left].
  - by rewrite app_nil_r.
  - rewrite IH, insert_by_key_perm. apply Permutation_middle.
Qed.

Lemma tuple_lt_rk a b :
  is_nan (fst a) = false -> is_nan (snd a) = false ->
  is_nan (fst b) = false -> is_nan (snd b) = false ->
  tuple_lt a b = true <->
  lt3 (frk (fst a)) (frk (fst b)) \/
  (frk (fst a) = frk (fst b) /\ lt3 (frk (snd a)) (frk (snd b))).
Proof.
  intros Ha1 Ha2 Hb1 Hb2. unfold tuple_lt.
  pose proof (Binary64.eqb_rk _ _ Ha1 Hb1) as E1.
  pose proof (Binary64.eqb_rk _ _ Ha2 Hb2) as E2.
  pose proof (Binary64.ltb_rk _ _ Ha1 Hb1) as L1.
  pose proof (Binary64.ltb_rk _ _ Ha2 Hb2) as L2.
  pose proof (Binary64.lt3_irrefl (frk (fst b))) as I1.
  pose proof (Binary64.lt3_irrefl (frk (snd b))) as I2.
  destruct (fst a =? fst b); cbn [negb].
  - destruct E1 as [E1 _]. rewrite (E1 eq_refl) in *.
    destruct (snd a =? snd b); cbn [negb].
    + destruct E2 as [E2 _]. rewrite (E2 eq_refl) in *. split; [done|tauto].
    + rewrite L2. tauto.
  - rewrite L1. split; [tauto|]. intros [?|[E ?]]; [done|].
    destruct E1 as [_ E1]. by specialize (E1 E).
Qed.

Lemma sort_key_no_nan p :
  no_nan p -> is_nan (fst (sort_key p)) = false /\ is_nan (snd (sort_key p)) = false.
Proof.
  destruct p as [[x y] z]. intros [Hx Hy]. cbn in *. by rewrite Binary64.opp_is_nan.
Qed.

Lemma lt3_negtrans a b c : ~ lt3 b a -> ~ lt3 c b -> ~ lt3 c a.
Proof. unfold lt3. lia. Qed.

Lemma klt_negtrans a b c : ~ klt b a -> ~ klt c b -> ~ klt c a.
Proof.
  unfold klt. intros H1 H2 [H3|[E H3]].
  - destruct (Binary64.lt3_total (fst b) (fst a)) as [?|[E|?]]; [tauto| |].
    + rewrite E in *. tauto.
    + destruct (Binary64.lt3_total (fst c) (fst b)) as [?|[E|?]]; [tauto| |].
      * rewrite E in *. tauto.
      * eapply Binary64.lt3_asym; [exact H3|]. by eapply Binary64.lt3_trans.
  - rewrite E in *.
    destruct (Binary64.lt3_total (fst b) (fst a)) as [?|[E'|?]]; [tauto| |tauto].
    rewrite E' in *.
    assert (~ lt3 (snd b) (snd a)) by tauto.
    assert (~ lt3 (snd c) (snd b)) by tauto.
    by eapply (lt3_negtrans (snd a) (snd b) (snd c)).
Qed.

Lemma key_le_rk p q : no_nan p -> no_nan q -> key_le p q <-> ~ klt (krk q) (krk p).
Proof.
  intros [Hp1 Hp2]%sort_key_no_nan [Hq1 Hq2]%sort_key_no_nan.
  unfold key_le. rewrite <- not_true_iff_false.
  by rewrite (tuple_lt_rk _ _ Hq1 Hq2 Hp1 Hp2).
Qed.

Lemma key_le_trans p q r :
  no_nan p -> no_nan q -> no_nan r -> key_le p q -> key_le q r -> key_le p r.
Proof.
  intros Hp Hq Hr. rewrite !key_le_rk by done. apply klt_negtrans.
Qed.

Lemma key_lt_le p q :
  no_nan p -> no_nan q -> tuple_lt (sort_key p) (sort_key q) = true -> key_le p q.
Proof.
  intros Hp Hq H. apply key_le_rk; [done..|].
  destruct (sort_key_no_nan p Hp) as [Hp1 Hp2], (sort_key_no_nan q Hq) as [Hq1 Hq2].
  apply (tuple_lt_rk _ _ Hp1 Hp2 Hq1 Hq2) in H. unfold klt, krk. cbn [fst snd].
  intros [H'|[E H']]; destruct H as [H|[E' H]].
  - by eapply Binary64.lt3_asym.
  - rewrite E' in H'. by eapply Binary64.lt3_irrefl.
  - rewrite E in H. by eapply Binary64.lt3_irrefl.
  - by eapply Binary64.lt3_asym.
Qed.

Lemma insert_by_key_sorted p l :
  no_nan p -> Forall no_nan l ->
  ForallOrdPairs key_le l -> ForallOrdPairs key_le (insert_by_key p l).
Proof.
  intros Hp Hl Hs. induction Hs as [|q l Hq Hs IH]; cbn [insert_by_key].
  - by repeat constructor.
  - apply Forall_cons in Hl as [Hqn Hl].
    destruct (tuple_lt (sort_key p) (sort_key q)) eqn:E.
    + pose proof (key_lt_le p q Hp Hqn E) as Hpq.
      constructor; [|by constructor]. constructor; [done|].
      rewrite List.Forall_forall in Hq, Hl |- *. intros r Hr.
      eapply (key_le_trans p q r); eauto.
    + constructor; [|by apply IH].
      rewrite (insert_by_key_perm p l). by constructor.
Qed.

Lemma sorted_sorted l : Forall no_nan l -> ForallOrdPairs key_le (sorted l).
Proof.
  unfold sorted.
  assert (H : forall acc, Forall no_nan acc -> ForallOrdPairs key_le acc ->
    Forall no_nan l -> ForallOrdPairs key_le (fold_left (fun acc p => insert_by_key p acc) l acc)).
  { induction l as [|p l IH]; intros acc Ha Hs Hl; cbn [fold_left]; [done|].
    apply Forall_cons in Hl as [Hp Hl]. apply IH; [|by apply insert_by_key_sorted|done].
    rewrite (insert_by_key_perm p acc). by constructor. }
  intros Hl. apply H; [constructor..|done].
Qed.

Lemma ForallOrdPairs_perm {A} (R : A -> A -> Prop) l l' :
  (forall a b, R a b -> R b a) ->
  Permutation l l' -> ForallOrdPairs R l -> ForallOrdPairs R l'.
Proof.
  intros Hsym. induction 1 as [|a l l' Hp IH|a b l|l1 l2 l3 _ IH1 _ IH2]; intros H.
  - done.
  - inversion H; subst. constructor; [by rewrite <- Hp|by apply IH].
  - inversion H as [|? ? Hb H']; subst. inversion H' as [|? ? Ha H'']; subst.
    apply Forall_cons in Hb as [Hba Hb].
    constructor; [|by constructor]. constructor; [by apply Hsym|done].
  - by apply IH2, IH1.
Qed.

Lemma sorted_distinct l : distinct_nodes l -> distinct_nodes (sorted l).
Proof.
  apply ForallOrdPairs_perm; [|by rewrite sorted_perm].
  intros a b. by rewrite (node_eqb_sym b a).
Qed.

Lemma ForallOrdPairs_lookup {A} (R : A -> A -> Prop) (l : list A) i j a b :
  ForallOrdPairs R l -> (i < j)%nat -> l !! i = Some a -> l !! j = Some b -> R a b.
Proof.
  intros H. revert i j. induction H as [|c l Hc Hl IH]; intros i j Hij Ha Hb; [done|].
  destruct j as [|j]; [lia|]. destruct i as [|i]; cbn in *.
  - simplify_eq. rewrite List.Forall_forall in Hc. apply Hc.
    apply list_elem_of_In. by eapply list_elem_of_lookup_2.
  - eapply (IH i j); [lia|done..].
Qed.

(** ** Numbering *)

Lemma number_nodes_lookup l i :
  number_nodes l !! i =
  (fun p => let '(x, y, z) := p in ((Z.of_nat i + 1)%Z, x, y, z)) <$> l !! i.
Proof. unfold number_nodes. by rewrite list_lookup_imap. Qed.

Lemma length_number_nodes l : length (number_nodes l) = length l.
Proof. unfold number_nodes. by rewrite length_imap. Qed.

Lemma number_nodes_nodes l : entry_node <$> number_nodes l = l.
Proof.
  apply list_eq. intros i. rewrite list_lookup_fmap, number_nodes_lookup.
  by destruct (l !! i) as [[[x y] z]|].
Qed.

Lemma number_nodes_ids l : entry_id <$> number_nodes l = Z.of_nat <$> seq 1 (length l).
Proof.
  apply list_eq. intros i. rewrite !list_lookup_fmap, number_nodes_lookup.
  destruct (l !! i) as [[[x y] z]|] eqn:E; cbn.
  - rewrite lookup_seq_lt by (by eapply lookup_lt_Some). cbn. f_equal. lia.
  - rewrite lookup_seq_ge; [done|]. by apply lookup_ge_None.
Qed.

Lemma before_of_key_le p q :
  no_nan p -> no_nan q -> snd p = 0 -> snd q = 0 ->
  key_le p q -> node_eqb p q = false -> before p q.
Proof.
  destruct p as [[x1 y1] z1], q as [[x2 y2] z2].
  intros [Hx1 Hy1] [Hx2 Hy2] Hz1 Hz2 Hle Hne. cbn in *. subst z1 z2.
  apply key_le_rk in Hle; [|done..]. unfold klt, krk in Hle. cbn [sort_key fst snd] in Hle.
  rewrite !Binary64.opp_rk in Hle.
  rewrite andb_true_r in Hne. apply andb_false_iff in Hne.
  rewrite <- !not_true_iff_false in Hne.
  rewrite (Binary64.eqb_rk _ _ Hx1 Hx2), (Binary64.eqb_rk _ _ Hy1 Hy2) in Hne.
  rewrite (Binary64.ltb_rk _ _ Hy2 Hy1), (Binary64.eqb_rk _ _ Hy1 Hy2),
    (Binary64.ltb_rk _ _ Hx1 Hx2).
  destruct (frk x1) as [[a1 a2] a3], (frk x2) as [[b1 b2] b3],
    (frk y1) as [[c1 c2] c3], (frk y2) as [[d1 d2] d3].
  unfold lt3 in *. cbn [fst snd] in *.
  assert (Hne' : ~ (a1 = b1 /\ a2 = b2 /\ a3 = b3) \/ ~ (c1 = d1 /\ c2 = d2 /\ c3 = d3)).
  { destruct Hne as [H|H]; [left|right]; intros (-> & -> & ->); by apply H. }
  assert (Hle' : ~ ((- d1 < - c1 \/ - d1 = - c1 /\ (- d2 < - c2 \/ - d2 = - c2 /\ - d3 < - c3)) \/
     (d1 = c1 /\ d2 = c2 /\ d3 = c3) /\ (b1 < a1 \/ b1 = a1 /\ (b2 < a2 \/ b2 = a2 /\ b3 < a3)))%Z).
  { intros [H|[(-> & -> & ->) H]]; apply Hle; [by left|right]. split; [done|]. exact H. }
  clear Hle Hne.
  assert ((d1 < c1 \/ d1 = c1 /\ (d2 < c2 \/ d2 = c2 /\ d3 < c3)) \/
     (c1 = d1 /\ c2 = d2 /\ c3 = d3) /\ (a1 < b1 \/ a1 = b1 /\ (a2 < b2 \/ a2 = b2 /\ a3 < b3)))%Z
    as [H|[(-> & -> & ->) H]] by lia; [by left|right]. split; [done|exact H].
Qed.

Lemma sorted_before nodes :
  Forall no_nan nodes -> Forall (fun p => snd p = 0) nodes -> distinct_nodes nodes ->
  descending_y_then_ascending_x (number_nodes (sorted nodes)).
Proof.
  intros Hn Hz Hd i j e1 e2 Hij H1 H2.
  rewrite number_nodes_lookup in H1, H2.
  destruct (sorted nodes !! i) as [p|] eqn:Ep; [|done].
  destruct (sorted nodes !! j) as [q|] eqn:Eq; [|done].
  cbn in H1, H2. simplify_eq.
  assert (entry_node (let '(x, y, z) := p in ((Z.of_nat i + 1)%Z, x, y, z)) = p) as ->
    by by destruct p as [[??]?].
  assert (entry_node (let '(x, y, z) := q in ((Z.of_nat j + 1)%Z, x, y, z)) = q) as ->
    by by destruct q as [[??]?].
  assert (Hin : forall r k, sorted nodes !! k = Some r -> In r nodes).
  { intros r k Hr. apply (Permutation_in _ (sorted_perm nodes)).
    apply list_elem_of_In. by eapply list_elem_of_lookup_2. }
  rewrite List.Forall_forall in Hn, Hz.
  apply before_of_key_le; eauto.
  - eapply (ForallOrdPairs_lookup key_le); [|done..]. apply sorted_sorted.
    by apply List.Forall_forall.
  - eapply (ForallOrdPairs_lookup (fun p q => node_eqb p q = false)); [|done..].
    by apply sorted_distinct.
Qed.

Lemma before_asym p q : no_nan p -> no_nan q -> before p q -> before q p -> False.
Proof.
  destruct p as [[x1 y1] z1], q as [[x2 y2] z2].
  intros [Hx1 Hy1] [Hx2 Hy2]. cbn in *.
  rewrite (Binary64.ltb_rk _ _ Hy2 Hy1), (Binary64.ltb_rk _ _ Hy1 Hy2),
    (Binary64.eqb_rk _ _ Hy1 Hy2), (Binary64.eqb_rk _ _ Hy2 Hy1),
    (Binary64.ltb_rk _ _ Hx1 Hx2), (Binary64.ltb_rk _ _ Hx2 Hx1).
  intros [H1|[E1 H1]] [H2|[E2 H2]].
  - by eapply Binary64.lt3_asym.
  - rewrite E2 in H1. by eapply Binary64.lt3_irrefl.
  - rewrite E1 in H2. by eapply Binary64.lt3_irrefl.
  - by eapply Binary64.lt3_asym.
Qed.

Lemma sorted_strict nodes :
  Forall no_nan nodes -> Forall (fun p => snd p = 0) nodes -> distinct_nodes nodes ->
  ForallOrdPairs before (sorted nodes).
Proof.
  intros Hn Hz Hd.
  pose proof (sorted_sorted nodes Hn) as Hs.
  pose proof (sorted_distinct nodes Hd) as Hd'.
  assert (Hn' : Forall no_nan (sorted nodes)) by by rewrite sorted_perm.
  assert (Hz' : Forall (fun p => snd p = 0) (sorted nodes)) by by rewrite sorted_perm.
  unfold distinct_nodes in Hd'.
  induction Hs as [|p l Hp Hs IH]; [constructor|].
  inversion Hd' as [|? ? Hdp Hdl]; subst.
  apply Forall_cons in Hn' as [Hnp Hnl]. apply Forall_cons in Hz' as [Hzp Hzl].
  constructor; [|by apply IH].
  rewrite List.Forall_forall in Hp, Hdp, Hnl, Hzl |- *.
  intros q Hq. apply before_of_key_le; auto.
Qed.

Lemma strictly_sorted_unique l1 : forall l2,
  Forall no_nan l1 -> ForallOrdPairs before l1 -> ForallOrdPairs before l2 ->
  Permutation l1 l2 -> l1 = l2.
Proof.
  induction l1 as [|a l1 IH]; intros l2 Hn H1 H2 Hp.
  - by apply Permutation_nil in Hp.
  - destruct l2 as [|b l2]; [by apply Permutation_sym, Permutation_nil in Hp|].
    apply Forall_cons in Hn as [Hna Hn].
    inversion H1 as [|? ? Ha H1']; subst. inversion H2 as [|? ? Hb H2']; subst.
    assert (Hab : a = b).
    { assert (Hin1 : In a (b :: l2)) by (apply (Permutation_in _ Hp); by left).
      assert (Hin2 : In b (a :: l1)) by (apply (Permutation_in _ (Permutation_sym Hp)); by left).
      destruct Hin1 as [->|Hin1]; [done|]. destruct Hin2 as [->|Hin2]; [done|].
      rewrite List.Forall_forall in Ha, Hb, Hn.
      destruct (before_asym a b); auto. }
    subst b. f_equal. apply IH; [done..|]. by apply Permutation_cons_inv in Hp.
Qed.

(** The order in which the set hands its elements to [sorted] does not
    matter. *)
Lemma sorted_any_order nodes iteration :
  Forall no_nan nodes -> Forall (fun p => snd p = 0) nodes -> distinct_nodes nodes ->
  Permutation iteration nodes -> sorted iteration = sorted nodes.
Proof.
  intros Hn Hz Hd Hp.
  apply strictly_sorted_unique.
  - by rewrite sorted_perm, Hp.
  - apply sorted_strict; [by rewrite Hp..|].
    eapply ForallOrdPairs_perm; [|by apply Permutation_sym|done].
    intros a b. by rewrite (node_eqb_sym b a).
  - by apply sorted_strict.
  - by rewrite !sorted_perm.
Qed.

Lemma X_COORDS_no_nan x : In x X_COORDS -> is_nan x = false.
Proof. unfold X_COORDS. cbn. intros H. repeat destruct H as [<-|H]; done. Qed.

Lemma X_COORDS_not_negative x : In x X_COORDS -> (x <? 0) = false.
Proof. unfold X_COORDS. cbn. intros H. repeat destruct H as [<-|H]; done. Qed.

Lemma build_nodes_no_nan y_coords :
  Forall (fun y => is_nan y = false) y_coords ->
  Forall no_nan (build_nodes y_coords) /\
  Forall (fun p => snd p = 0) (build_nodes y_coords).
Proof.
  intros Hy. rewrite List.Forall_forall in Hy.
  split; apply List.Forall_forall; intros p (x & y & -> & Hx & Hy')%In_build_nodes; [|done].
  split; cbn; [by apply X_COORDS_no_nan|by apply Hy].
Qed.

Lemma leb_zero_no_nan y : (y <=? 0) = true -> is_nan y = false.
Proof.
  rewrite Binary64.leb_zero_nonpos, Binary64.is_nan_spec. by destruct (Prim2SF y).
Qed.

Lemma leb_zero_not_pos y : (y <=? 0) = true -> (0 <? y) = false.
Proof.
  rewrite Binary64.leb_zero_nonpos, ltb_spec. change (Prim2SF 0) with (S754_zero false).
  by destruct (Prim2SF y) as [[]|[]| |[] m e].
Qed.

Lemma depths_from_no_nan ts : forall c,
  is_nan c = false -> Forall (fun t => is_finite t = true) ts ->
  Forall (fun y => is_nan y = false) (depths_from c ts).
Proof.
  induction ts as [|t ts IH]; intros c Hc Hts; cbn [depths_from].
  - constructor; [|done]. by apply Binary64.sub_not_nan.
  - apply Forall_cons in Hts as [Ht Hts].
    pose proof (Binary64.sub_not_nan c t Hc Ht). constructor; [done|by apply IH].
Qed.

Lemma add_all_head p l : In p (add_all (p :: l) []).
Proof.
  rewrite add_all_cons. change (set_add p []) with [p].
  destruct (add_all_prefix l [p]) as (l' & -> & _). by left.
Qed.

Lemma origin_in_build_nodes ys : In (0, 0, 0) (build_nodes (0 :: ys)).
Proof.
  rewrite build_nodes_eq. apply (add_all_head (0, 0, 0) (tail (row 0) ++ grid ys)).
Qed.

Lemma sorted_head_origin ys :
  Forall (fun y => (y <=? 0) = true) ys ->
  head (number_nodes (sorted (build_nodes (0 :: ys)))) = Some (1%Z, 0, 0, 0).
Proof.
  intros Hy. set (nodes := build_nodes (0 :: ys)).
  assert (Hy0 : Forall (fun y => (y <=? 0) = true) (0 :: ys)) by by constructor.
  assert (Hnn : Forall (fun y => is_nan y = false) (0 :: ys)).
  { eapply Forall_impl; [exact Hy0|]. apply leb_zero_no_nan. }
  destruct (build_nodes_no_nan _ Hnn) as [Hn Hz]. fold nodes in Hn, Hz.
  pose proof (build_nodes_distinct (0 :: ys)) as Hd. fold nodes in Hd.
  pose proof (sorted_before nodes Hn Hz Hd) as Hord.
  pose proof (origin_in_build_nodes ys) as Ho. fold nodes in Ho.
  apply (Permutation_in _ (Permutation_sym (sorted_perm nodes))) in Ho.
  apply list_elem_of_In, list_elem_of_lookup in Ho as [j Hj].
  destruct j as [|j].
  - by rewrite head_lookup, number_nodes_lookup, Hj.
  - destruct (sorted nodes !! 0%nat) as [[[x y] z]|] eqn:E0.
    2:{ apply lookup_ge_None in E0. apply lookup_lt_Some in Hj. lia. }
    exfalso.
    assert (Hin : In (x, y, z) nodes).
    { apply (Permutation_in _ (sorted_perm nodes)).
      apply list_elem_of_In. by eapply list_elem_of_lookup_2. }
    apply In_build_nodes in Hin as (x' & y' & [= -> -> ->] & Hx & Hy').
    specialize (Hord 0%nat (S j) (1%Z, x', y', 0) ((Z.of_nat (S j) + 1)%Z, 0, 0, 0)
      ltac:(lia)).
    rewrite !number_nodes_lookup, E0, Hj in Hord.
    destruct (Hord eq_refl eq_refl) as [H|[_ H]].
    + rewrite List.Forall_forall in Hy0. by rewrite leb_zero_not_pos in H by by apply Hy0.
    + by rewrite X_COORDS_not_negative in H.
Qed.

Lemma generate_inv pt layers ts nodes cols rows :
  layer_thicknesses pt layers = Ok ts ->
  generate_pavement_nodes pt layers = Ok (nodes, cols, rows) ->
  nodes = build_nodes (build_y_coords ts) /\
  cols = build_col_lines (build_y_coords ts) /\
  rows = build_row_lines (build_y_coords ts).
Proof.
  intros Hts Hg. rewrite (generate_pavement_nodes_eq _ _ _ Hts) in Hg. by simplify_eq.
Qed.

Lemma numbering_bijection nodes :
  entry_id <$> number_nodes (sorted nodes) = Z.of_nat <$> seq 1 (length nodes) /\
  Permutation (entry_node <$> number_nodes (sorted nodes)) nodes.
Proof.
  rewrite number_nodes_ids, number_nodes_nodes.
  split; [|apply sorted_perm]. by rewrite (Permutation_length (sorted_perm nodes)).
Qed.

(** C2, counterexample.  Rigid with a slab of thickness -1.0 and a
    subbase of 0.5: the depths are [0.0; 1.0; 0.5; -1.0], and the node
    numbered 1 is (0.0, 1.0, 0.0), not (0.0, 0.0, 0.0). *)
Lemma C2_counterexample :
  exists nodes cols rows,
    generate_pavement_nodes "Rigid" rigid_negative_slab = Ok (nodes, cols, rows) /\
    head (number_nodes (sorted nodes)) = Some (1%Z, 0.0, 1.0, 0.0).
Proof. eexists _, _, _. split; by vm_compute. Qed.

(** C2, amended.  For every node set produced by build, and in whatever
    order [iteration] the set hands out its nodes, the numbering step gives
    the ids 1..N, one to each node of the set.  When every thickness is a
    finite number, the ids follow the order of descending y then ascending
    x.  When no thickness is negative, the ids follow that order and the
    node with id 1 is exactly (0.0, 0.0, 0.0). *)
Theorem C2_numbering pt layers ts nodes cols rows iteration :
  layer_thicknesses pt layers = Ok ts ->
  generate_pavement_nodes pt layers = Ok (nodes, cols, rows) ->
  Permutation iteration nodes ->
  let node_list := number_nodes (sorted iteration) in
  entry_id <$> node_list = Z.of_nat <$> seq 1 (length nodes) /\
  Permutation (entry_node <$> node_list) nodes /\
  (Forall (fun t => is_finite t = true) ts ->
   descending_y_then_ascending_x node_list) /\
  (Forall (fun t => (0 <=? t) = true) ts ->
   descending_y_then_ascending_x node_list /\
   head node_list = Some (1%Z, 0.0, 0.0, 0.0)).
Proof.
  intros Hts Hg Hit node_list. destruct (generate_inv _ _ _ _ _ _ Hts Hg) as (-> & _ & _).
  destruct (numbering_bijection iteration) as [Hid Hperm].
  rewrite (Permutation_length Hit) in Hid.
  apply (fun H => Permutation_trans H Hit) in Hperm.
  split; [done|]. split; [done|].
  assert (Hany : Forall (fun y => is_nan y = false) (build_y_coords ts) ->
                 sorted iteration = sorted (build_nodes (build_y_coords ts))).
  { intros Hy. destruct (build_nodes_no_nan _ Hy) as [Hn Hz].
    apply sorted_any_order; [done..|apply build_nodes_distinct|done]. }
  assert (Hord : Forall (fun y => is_nan y = false) (build_y_coords ts) ->
                 descending_y_then_ascending_x node_list).
  { intros Hy. unfold node_list. rewrite (Hany Hy).
    destruct (build_nodes_no_nan _ Hy) as [Hn Hz].
    apply sorted_before; [done..|apply build_nodes_distinct]. }
  split.
  - intros Hfin. apply Hord. rewrite build_y_coords_eq.
    constructor; [done|]. by apply depths_from_no_nan.
  - intros Hpos.
    destruct (depths_from_nonpos ts 0 eq_refl Hpos) as [Hy _].
    assert (Hnan : Forall (fun y => is_nan y = false) (build_y_coords ts)).
    { rewrite build_y_coords_eq. constructor; [done|].
      eapply Forall_impl; [exact Hy|]. apply leb_zero_no_nan. }
    split; [by apply Hord|].
    unfold node_list. rewrite (Hany Hnan), build_y_coords_eq. by apply sorted_head_origin.
Qed.

(** C2 on the defaults of the Flexible type, the set handing out its
    elements in reverse order of insertion. *)
Lemma C2_numbering_witness :
  let ts := [0.06; 0.08; 0.20; 0.20] in
  let nodes := build_nodes (build_y_coords ts) in
  let node_list := number_nodes (sorted (rev nodes)) in
  entry_id <$> node_list = Z.of_nat <$> seq 1 (length nodes) /\
  Permutation (entry_node <$> node_list) nodes /\
  (Forall (fun t => is_finite t = true) ts ->
   descending_y_then_ascending_x node_list) /\
  (Forall (fun t => (0 <=? t) = true) ts ->
   descending_y_then_ascending_x node_list /\
   head node_list = Some (1%Z, 0.0, 0.0, 0.0)).
Proof.
  apply (C2_numbering "Flexible" flexible_defaults [0.06; 0.08; 0.20; 0.20] _
           (build_col_lines (build_y_coords [0.06; 0.08; 0.20; 0.20]))
           (build_row_lines (build_y_coords [0.06; 0.08; 0.20; 0.20]))).
  - vm_compute. reflexivity.
  - vm_compute. reflexivity.
  - apply Permutation_sym, Permutation_rev.
Defined.

(** C7.  Flexible with surface 0.06, binder 0.08, base 0.20 and subbase
    0.20: the depth sequence is [0.0; -0.06; -0.14; -0.34; -0.54; -2.04],
    there are 36 nodes, and in whatever order the set hands them out the
    node with id 1 is (0.0, 0.0, 0.0) and the node with id 36 is
    (3.0, -2.04, 0.0). *)
Theorem C7_flexible_example :
  layer_thicknesses "Flexible" flexible_defaults = Ok [0.06; 0.08; 0.20; 0.20] /\
  build_y_coords [0.06; 0.08; 0.20; 0.20] = [0.0; -0.06; -0.14; -0.34; -0.54; -2.04] /\
  exists nodes cols rows,
    generate_pavement_nodes "Flexible" flexible_defaults = Ok (nodes, cols, rows) /\
    length nodes = 36%nat /\
    forall iteration, Permutation iteration nodes ->
      length (number_nodes (sorted iteration)) = 36%nat /\
      number_nodes (sorted iteration) !! 0%nat = Some (1%Z, 0.0, 0.0, 0.0) /\
      number_nodes (sorted iteration) !! 35%nat = Some (36%Z, 3.0, -2.04, 0.0).
Proof.
  split; [by vm_compute|]. split; [by vm_compute|].
  exists (build_nodes (build_y_coords [0.06; 0.08; 0.20; 0.20])),
    (build_col_lines (build_y_coords [0.06; 0.08; 0.20; 0.20])),
    (build_row_lines (build_y_coords [0.06; 0.08; 0.20; 0.20])).
  split; [by vm_compute|]. split; [by vm_compute|].
  intros iteration Hit.
  assert (Hy : Forall (fun y => is_nan y = false)
                 (build_y_coords [0.06; 0.08; 0.20; 0.20])) by (vm_compute; by repeat constructor).
  destruct (build_nodes_no_nan _ Hy) as [Hn Hz].
  rewrite (sorted_any_order _ _ Hn Hz (build_nodes_distinct _) Hit).
  repeat split; by vm_compute.
Qed.

(** C8.  For every valid input, build returns one column polyline per
    station, listing the nodes at that x across all depths in depth order,
    and one row polyline per depth, listing the nodes at that y across all
    stations in station order; the same input gives the same result. *)
Theorem C8_polylines pt layers ts nodes cols rows :
  layer_thicknesses pt layers = Ok ts ->
  generate_pavement_nodes pt layers = Ok (nodes, cols, rows) ->
  let y_coords := build_y_coords ts in
  length cols = length X_COORDS /\
  length rows = length y_coords /\
  (forall i x, X_COORDS !! i = Some x ->
     cols !! i = Some (map (fun y => (x, y, 0.0)) y_coords)) /\
  (forall j y, y_coords !! j = Some y ->
     rows !! j = Some (map (fun x => (x, y, 0.0)) X_COORDS)) /\
  (forall i j x y, X_COORDS !! i = Some x -> y_coords !! j = Some y ->
     cols !! i ≫= (fun col => col !! j) = Some (x, y, 0.0) /\
     rows !! j ≫= (fun row => row !! i) = Some (x, y, 0.0)) /\
  (forall again, generate_pavement_nodes pt layers = Ok again ->
     again = (nodes, cols, rows)).
Proof.
  intros Hts Hg y_coords. destruct (generate_inv _ _ _ _ _ _ Hts Hg) as (_ & -> & ->).
  fold y_coords. unfold build_col_lines, build_row_lines.
  assert (Hc : forall i x, X_COORDS !! i = Some x ->
    map (fun x => map (fun y => (x, y, 0.0)) y_coords) X_COORDS !! i
    = Some (map (fun y => (x, y, 0.0)) y_coords)).
  { intros i x Hx. change (map ?f ?l) with (f <$> l) at 1. by rewrite list_lookup_fmap, Hx. }
  assert (Hr : forall j y, y_coords !! j = Some y ->
    map (fun y => map (fun x => (x, y, 0.0)) X_COORDS) y_coords !! j
    = Some (map (fun x => (x, y, 0.0)) X_COORDS)).
  { intros j y Hy. change (map ?f ?l) with (f <$> l) at 1. by rewrite list_lookup_fmap, Hy. }
  split; [by rewrite length_map|]. split; [by rewrite length_map|].
  split; [done|]. split; [done|]. split.
  - intros i j x y Hx Hy. rewrite (Hc i x Hx), (Hr j y Hy). cbn [mbind option_bind].
    change (map ?f ?l) with (f <$> l). by rewrite !list_lookup_fmap, Hx, Hy.
  - intros again Hg'. rewrite Hg in Hg'. by injection Hg' as <-.
Qed.

(** C8 on the defaults of the Flexible type. *)
Lemma C8_polylines_witness :
  let ts := [0.06; 0.08; 0.20; 0.20] in
  let y_coords := build_y_coords ts in
  let nodes := build_nodes y_coords in
  let cols := build_col_lines y_coords in
  let rows := build_row_lines y_coords in
  length cols = length X_COORDS /\
  length rows = length y_coords /\
  (forall i x, X_COORDS !! i = Some x ->
     cols !! i = Some (map (fun y => (x, y, 0.0)) y_coords)) /\
  (forall j y, y_coords !! j = Some y ->
     rows !! j = Some (map (fun x => (x, y, 0.0)) X_COORDS)) /\
  (forall i j x y, X_COORDS !! i = Some x -> y_coords !! j = Some y ->
     cols !! i ≫= (fun col => col !! j) = Some (x, y, 0.0) /\
     rows !! j ≫= (fun row => row !! i) = Some (x, y, 0.0)) /\
  (forall again, generate_pavement_nodes "Flexible" flexible_defaults = Ok again ->
     again = (nodes, cols, rows)).
Proof.
  apply (C8_polylines "Flexible" flexible_defaults [0.06; 0.08; 0.20; 0.20]).
  - vm_compute. reflexivity.
  - vm_compute. reflexivity.
Defined.

Lemma length_build_y_coords ts : length (build_y_coords ts) = (length ts + 2)%nat.
Proof. rewrite build_y_coords_eq. cbn [length]. rewrite length_depths_from. lia. Qed.

(** C9.  For every thickness input, zero and negative values included, and
    in whatever order [iteration] the set hands out its nodes, the
    numbering step gives the surviving nodes the ids 1..N with no gap and
    no repeat, N being the size of the node set; N is at most
    6 x (layer count + 2), and smaller as soon as two depths coincide. *)
Theorem C9_contiguous_ids pt layers ts nodes cols rows iteration :
  layer_thicknesses pt layers = Ok ts ->
  generate_pavement_nodes pt layers = Ok (nodes, cols, rows) ->
  Permutation iteration nodes ->
  let node_list := number_nodes (sorted iteration) in
  entry_id <$> node_list = Z.of_nat <$> seq 1 (length nodes) /\
  Permutation (entry_node <$> node_list) nodes /\
  distinct_nodes nodes /\
  (length nodes <= 6 * (layer_count pt + 2))%nat /\
  (forall i j a b, (i < j)%nat ->
     build_y_coords ts !! i = Some a -> build_y_coords ts !! j = Some b ->
     (a =? b) = true -> (length nodes < 6 * (layer_count pt + 2))%nat).
Proof.
  intros Hts Hg Hit node_list. destruct (generate_inv _ _ _ _ _ _ Hts Hg) as (-> & _ & _).
  destruct (numbering_bijection iteration) as [Hid Hperm].
  rewrite (Permutation_length Hit) in Hid.
  apply (fun H => Permutation_trans H Hit) in Hperm.
  rewrite <- (layer_thicknesses_length _ _ _ Hts), <- length_build_y_coords.
  split; [done|]. split; [done|]. split; [apply build_nodes_distinct|].
  split; [apply build_nodes_length|].
  intros i j a b. apply build_nodes_repeat.
Qed.

(** C9 on a Rigid pavement whose slab has thickness 0.0, the set handing
    out its elements in reverse order of insertion. *)
Lemma C9_contiguous_ids_witness :
  let ts := [0.0; 0.2] in
  let nodes := build_nodes (build_y_coords ts) in
  let node_list := number_nodes (sorted (rev nodes)) in
  entry_id <$> node_list = Z.of_nat <$> seq 1 (length nodes) /\
  Permutation (entry_node <$> node_list) nodes /\
  distinct_nodes nodes /\
  (length nodes <= 6 * (layer_count "Rigid" + 2))%nat /\
  (forall i j a b, (i < j)%nat ->
     build_y_coords ts !! i = Some a -> build_y_coords ts !! j = Some b ->
     (a =? b) = true -> (length nodes < 6 * (layer_count "Rigid" + 2))%nat).
Proof.
  apply (C9_contiguous_ids "Rigid" rigid_zero_slab [0.0; 0.2] _
           (build_col_lines (build_y_coords [0.0; 0.2]))
           (build_row_lines (build_y_coords [0.0; 0.2]))).
  - vm_compute. reflexivity.
  - vm_compute. reflexivity.
  - apply Permutation_sym, Permutation_rev.
Defined.

Lemma length_concat_rows y_coords :
  length (concat (build_row_lines y_coords)) = (6 * length y_coords)%nat.
Proof.
  unfold build_row_lines. induction y_coords as [|y ys IH]; [done|].
  cbn [map concat]. rewrite length_app, IH, length_map. cbn [X_COORDS length]. lia.
Qed.

Lemma length_concat_cols y_coords :
  length (concat (build_col_lines y_coords)) = (6 * length y_coords)%nat.
Proof.
  unfold build_col_lines, X_COORDS. cbn [map concat].
  rewrite !length_app, !length_map. cbn [length]. lia.
Qed.

(** C10.  For every thickness input, build returns exactly 6 column
    polylines and exactly (layer count + 2) row polylines, made from the
    raw depth list.  When two depths coincide, their two row polylines are
    equal point for point, and the polylines hold more points than the
    node set has nodes. *)
Theorem C10_polylines_keep_duplicates pt layers ts nodes cols rows :
  layer_thicknesses pt layers = Ok ts ->
  generate_pavement_nodes pt layers = Ok (nodes, cols, rows) ->
  let y_coords := build_y_coords ts in
  length cols = 6%nat /\
  length rows = (layer_count pt + 2)%nat /\
  cols = map (fun x => map (fun y => (x, y, 0.0)) y_coords) X_COORDS /\
  rows = map row y_coords /\
  length (concat cols) = (6 * (layer_count pt + 2))%nat /\
  length (concat rows) = (6 * (layer_count pt + 2))%nat /\
  (forall i j a b, (i < j)%nat ->
     y_coords !! i = Some a -> y_coords !! j = Some b -> (a =? b) = true ->
     rows !! i = Some (row a) /\ rows !! j = Some (row b) /\
     Forall2 (fun p q => node_eqb p q = true) (row a) (row b) /\
     (a = b -> rows !! i = rows !! j) /\
     (length nodes < length (concat rows))%nat /\
     (length nodes < length (concat cols))%nat).
Proof.
  intros Hts Hg y_coords. destruct (generate_inv _ _ _ _ _ _ Hts Hg) as (-> & -> & ->).
  fold y_coords.
  assert (Hlen : length y_coords = (layer_count pt + 2)%nat).
  { rewrite <- (layer_thicknesses_length _ _ _ Hts). apply length_build_y_coords. }
  rewrite length_concat_cols, length_concat_rows, Hlen.
  split; [done|]. split; [unfold build_row_lines; by rewrite length_map|].
  split; [done|]. split; [done|]. split; [done|]. split; [done|].
  intros i j a b Hij Ha Hb Hab.
  assert (Hrow : forall k y, y_coords !! k = Some y -> build_row_lines y_coords !! k = Some (row y)).
  { intros k y Hy. unfold build_row_lines. change (map ?f ?l) with (f <$> l) at 1.
    by rewrite list_lookup_fmap, Hy. }
  pose proof (build_nodes_repeat y_coords i j a b Hij Ha Hb Hab) as Hlt.
  rewrite Hlen in Hlt.
  split; [by apply Hrow|]. split; [by apply Hrow|]. split; [|split; [|done]].
  - unfold row, X_COORDS. cbn [map]. repeat constructor; cbn; by rewrite Hab.
  - intros ->. by rewrite (Hrow i b Ha), (Hrow j b Hb).
Qed.

(** C10 on a Rigid pavement whose slab has thickness 0.0. *)
Lemma C10_polylines_keep_duplicates_witness :
  let ts := [0.0; 0.2] in
  let y_coords := build_y_coords ts in
  let nodes := build_nodes y_coords in
  let cols := build_col_lines y_coords in
  let rows := build_row_lines y_coords in
  length cols = 6%nat /\
  length rows = (layer_count "Rigid" + 2)%nat /\
  cols = map (fun x => map (fun y => (x, y, 0.0)) y_coords) X_COORDS /\
  rows = map row y_coords /\
  length (concat cols) = (6 * (layer_count "Rigid" + 2))%nat /\
  length (concat rows) = (6 * (layer_count "Rigid" + 2))%nat /\
  (forall i j a b, (i < j)%nat ->
     y_coords !! i = Some a -> y_coords !! j = Some b -> (a =? b) = true ->
     rows !! i = Some (row a) /\ rows !! j = Some (row b) /\
     Forall2 (fun p q => node_eqb p q = true) (row a) (row b) /\
     (a = b -> rows !! i = rows !! j) /\
     (length nodes < length (concat rows))%nat /\
     (length nodes < length (concat cols))%nat).
Proof.
  apply (C10_polylines_keep_duplicates "Rigid" rigid_zero_slab [0.0; 0.2]).
  - vm_compute. reflexivity.
  - vm_compute. reflexivity.
Defined.

(** ** The exported file *)

Lemma append_nil (b : string) : "" +:+ b = b.
Proof. done. Qed.

Lemma append_cons x (a b : string) : String x a +:+ b = String x (a +:+ b).
Proof. done. Qed.

Lemma append_assoc (a b c : string) : (a +:+ b) +:+ c = a +:+ (b +:+ c).
Proof. induction a as [|x a IH]; rewrite ?append_nil, ?append_cons; congruence. Qed.

Lemma append_nil_r (a : string) : a +:+ "" = a.
Proof. induction a as [|x a IH]; rewrite ?append_nil, ?append_cons; congruence. Qed.

Lemma has_char_app c a b : has_char c (a +:+ b) = has_char c a || has_char c b.
Proof.
  unfold has_char. induction a as [|x a IH]; rewrite ?append_nil, ?append_cons; [done|].
  cbn [list_ascii_of_string existsb]. by rewrite IH, orb_assoc.
Qed.

Lemma split_on_app c s t :
  has_char c s = false -> split_on c (s +:+ String c t) = s :: split_on c t.
Proof.
  unfold has_char. induction s as [|a s IH]; rewrite ?append_nil, ?append_cons;
    cbn [list_ascii_of_string existsb split_on].
  - by rewrite Ascii.eqb_refl.
  - intros [Hca Hs]%orb_false_elim. rewrite Ascii.eqb_sym, Hca. by rewrite IH.
Qed.

Lemma split_on_none c s : has_char c s = false -> split_on c s = [s].
Proof.
  unfold has_char. induction s as [|a s IH]; cbn; [done|].
  intros [Hca Hs]%orb_false_elim. rewrite Ascii.eqb_sym, Hca. by rewrite IH.
Qed.

Lemma has_char_uint c d :
  c <> "0"%char -> c <> "1"%char -> c <> "2"%char -> c <> "3"%char -> c <> "4"%char ->
  c <> "5"%char -> c <> "6"%char -> c <> "7"%char -> c <> "8"%char -> c <> "9"%char ->
  has_char c (NilEmpty.string_of_uint d) = false.
Proof.
  intros. unfold has_char.
  induction d; cbn; rewrite ?IHd, ?orb_false_r; try done; by apply Ascii.eqb_neq.
Qed.

Lemma has_char_str_of_int c n :
  c = ","%char \/ c = "010"%char -> has_char c (str_of_int n) = false.
Proof.
  intros Hc. unfold str_of_int.
  assert (Hu : forall d, has_char c (NilZero.string_of_uint d) = false).
  { intros d. unfold NilZero.string_of_uint.
    destruct d; try (apply has_char_uint; by destruct Hc as [-> | ->]);
      by destruct Hc as [-> | ->]. }
  destruct (Z.to_int n) as [d|d]; cbn [NilZero.string_of_int]; [apply Hu|].
  change (String "-" ?s) with ("-" +:+ s). rewrite has_char_app, Hu.
  by destruct Hc as [-> | ->].
Qed.

Lemma int_of_str_of_int n : int_of_str (str_of_int n) = Some n.
Proof.
  unfold int_of_str, str_of_int. rewrite NilZero.isi.
  - cbn. by rewrite DecimalZ.of_to.
  - destruct n as [|p|p]; cbn; try done; intros [= H]; by apply DecimalPos.Unsigned.to_uint_nonnil in H.
  - destruct n as [|p|p]; cbn; try done; intros [= H]; by apply DecimalPos.Unsigned.to_uint_nonnil in H.
Qed.

Section Roundtrip.

Variable float_of_str : string -> option float.
Variable str_of_float : float -> string.

Lemma node_line_bare entry :
  node_line str_of_float entry = bare_line str_of_float entry +:+ newline.
Proof.
  destruct entry as [[[nid x] y] z]. unfold node_line, bare_line.
  by rewrite !append_assoc.
Qed.

Lemma written_text nodes_list : forall f,
  fold_left (fun f entry => f +:+ node_line str_of_float entry) nodes_list f
  = f +:+ body str_of_float nodes_list.
Proof.
  induction nodes_list as [|e l IH]; intros f; cbn [fold_left body fold_right].
  - by rewrite append_nil_r.
  - rewrite IH, node_line_bare, !append_assoc. done.
Qed.

Lemma bare_line_no_newline entry :
  entry_reads_back float_of_str str_of_float entry ->
  has_char "010"%char (bare_line str_of_float entry) = false.
Proof.
  destruct entry as [[[nid x] y] z]. intros ((_ & _ & Hx) & (_ & _ & Hy) & (_ & _ & Hz)).
  unfold bare_line. rewrite !has_char_app, Hx, Hy, Hz.
  rewrite has_char_str_of_int by by right. done.
Qed.

Lemma read_node_bare_line entry :
  entry_reads_back float_of_str str_of_float entry ->
  read_node float_of_str (bare_line str_of_float entry) = Some entry.
Proof.
  destruct entry as [[[nid x] y] z].
  intros ((Hx & Hxc & _) & (Hy & Hyc & _) & (Hz & Hzc & _)).
  unfold read_node, bare_line.
  change ("N," +:+ ?s) with ("N" +:+ String ","%char s).
  rewrite !(append_cons ","%char ""), !append_nil.
  rewrite (split_on_app _ "N") by done.
  rewrite split_on_app by (apply has_char_str_of_int; by left).
  rewrite split_on_app by done. rewrite split_on_app by done.
  rewrite split_on_none by done.
  cbn [String.eqb Ascii.eqb Bool.eqb].
  rewrite int_of_str_of_int. cbn. rewrite Hx. cbn. rewrite Hy. cbn. by rewrite Hz.
Qed.

Lemma split_body nodes_list :
  Forall (entry_reads_back float_of_str str_of_float) nodes_list ->
  split_on "010"%char (body str_of_float nodes_list)
  = (map (bare_line str_of_float) nodes_list ++ [""])%list.
Proof.
  induction 1 as [|e l He Hl IH]; cbn [body fold_right map app]; [done|].
  rewrite split_on_app by by apply bare_line_no_newline.
  fold (body str_of_float l). by rewrite IH.
Qed.

Lemma ended_lines_snoc lines : ended_lines (lines ++ [""]) = Some lines.
Proof.
  induction lines as [|a lines IH]; [done|].
  cbn [app ended_lines]. destruct (lines ++ [""])%list eqn:E.
  - by destruct lines.
  - by rewrite IH.
Qed.

Lemma read_nodes_written nodes_list :
  Forall (entry_reads_back float_of_str str_of_float) nodes_list ->
  read_nodes float_of_str ("/PREP7" +:+ newline +:+ body str_of_float nodes_list)
  = Some nodes_list.
Proof.
  intros Hl. unfold read_nodes.
  change ("/PREP7" +:+ newline +:+ ?s) with ("/PREP7" +:+ String "010"%char s).
  rewrite split_on_app by done. rewrite split_body by done.
  rewrite app_comm_cons, ended_lines_snoc.
  cbn [String.eqb Ascii.eqb Bool.eqb]. apply mapM_Some.
  induction Hl as [|e l He Hl IH]; cbn [map]; constructor; [|done].
  by apply read_node_bare_line.
Qed.

(** C4.  For every numbered node list whose coordinates survive the
    conversion to text (the text of a float holds no comma and no newline,
    and [float] reads it back as the same float, as Python's [repr] and
    [float] do), the file written by export starts with the line /PREP7,
    and reading it back gives exactly that list: the same ids and the same
    x, y, z, in the same order. *)
Theorem C4_read_after_write files file_path nodes_list :
  Forall (entry_reads_back float_of_str str_of_float) nodes_list ->
  exists text rest,
    write_to_text str_of_float files file_path nodes_list !! file_path = Some text /\
    text = "/PREP7" +:+ newline +:+ rest /\
    read_nodes float_of_str text = Some nodes_list.
Proof.
  intros Hl.
  exists ("/PREP7" +:+ newline +:+ body str_of_float nodes_list), (body str_of_float nodes_list).
  unfold write_to_text. rewrite lookup_insert_eq, written_text, append_assoc.
  split; [done|]. split; [done|by apply read_nodes_written].
Qed.

End Roundtrip.

(** C4 on the first two nodes of a grid, with the stand-in built-ins. *)
Lemma C4_read_after_write_witness :
  exists text rest,
    write_to_text demo_str_of_float ∅ "nodes.txt"
      [(1%Z, 0.0, 0.0, 0.0); (2%Z, 0.475, 0.0, 0.0)] !! "nodes.txt" = Some text /\
    text = "/PREP7" +:+ newline +:+ rest /\
    read_nodes demo_float_of_str text
    = Some [(1%Z, 0.0, 0.0, 0.0); (2%Z, 0.475, 0.0, 0.0)].
Proof.
  apply (C4_read_after_write demo_float_of_str demo_str_of_float).
  repeat constructor; vm_compute; reflexivity.
Defined.

(** ** The pipeline *)

Lemma known_type_false pt :
  known_type pt = false ->
  String.eqb pt "Flexible" = false /\ String.eqb pt "Rigid" = false /\
  String.eqb pt "Semi-Rigid" = false.
Proof. unfold known_type. by intros [[??]%orb_false_elim ?]%orb_false_elim. Qed.

Lemma layer_thicknesses_else pt layers :
  String.eqb pt "Flexible" = false -> String.eqb pt "Rigid" = false ->
  layer_thicknesses pt layers = layer_thicknesses "Semi-Rigid" layers.
Proof. unfold layer_thicknesses. by intros -> ->. Qed.

Section Pipeline.

Variable float_of_str : string -> option float.
Variable str_of_float : float -> string.

Lemma gather_layers_bad gui :
  Exists (fun s => float_of_str s = None) (thickness_fields gui) ->
  gather_layers float_of_str gui = Raise ValueError.
Proof.
  unfold gather_layers, thickness_fields, to_float, mbind, result_bind.
  destruct (String.eqb _ "Flexible"); [|destruct (String.eqb _ "Rigid")];
    rewrite ?Exists_cons, Exists_nil; intros H;
    repeat (destruct (float_of_str _); [|done]); intuition discriminate.
Qed.



(** C6.  Whenever the pavement type is unselected or one of the thickness
    fields of the selected type does not parse as a number, the pipeline
    ends with the respective notice (selection error or thickness error)
    and the files are left as they were: no file is written. *)
Theorem C6_invalid_input_writes_nothing gui asksaveasfilename w :
  known_type (pavement_type_var gui) = false \/
  Exists (fun s => float_of_str s = None) (thickness_fields gui) ->
  let w' := on_generate float_of_str str_of_float gui asksaveasfilename w in
  files w' = files w /\
  events w' = (events w ++
    [if known_type (pavement_type_var gui) then thickness_error else selection_error])%list.
Proof.
  intros H w'. unfold w', on_generate.
  destruct (known_type (pavement_type_var gui)) eqn:E; cbn [negb]; [|done].
  destruct H as [|H]; [done|]. by rewrite (gather_layers_bad gui H).
Qed.

(** C5, amended.  For every pavement type that is not one of the three
    tags, the pipeline stops with the selection error before build is
    called.  Build itself does not check the tag: it treats such a type
    exactly as Semi-Rigid, and returns a node set whenever the keys
    asphalt, ctb and semirigid_subbase are bound. *)
Theorem C5_unknown_type_rejected_by_pipeline pt :
  known_type pt = false ->
  (forall gui asksaveasfilename w, pavement_type_var gui = pt ->
     on_generate float_of_str str_of_float gui asksaveasfilename w = emit selection_error w) /\
  (forall layers,
     generate_pavement_nodes pt layers = generate_pavement_nodes "Semi-Rigid" layers) /\
  (forall layers asphalt ctb semirigid_subbase,
     layers !! "asphalt" = Some asphalt -> layers !! "ctb" = Some ctb ->
     layers !! "semirigid_subbase" = Some semirigid_subbase ->
     exists nodes cols rows, generate_pavement_nodes pt layers = Ok (nodes, cols, rows)).
Proof.
  intros Hpt. destruct (known_type_false pt Hpt) as (HF & HR & _).
  assert (Hgen : forall layers,
    generate_pavement_nodes pt layers = generate_pavement_nodes "Semi-Rigid" layers).
  { intros layers. unfold generate_pavement_nodes. by rewrite layer_thicknesses_else. }
  split; [|split; [done|]].
  - intros gui path w <-. unfold on_generate. by rewrite Hpt.
  - intros layers a c s Ha Hc Hs. unfold_result.
    rewrite HF, HR, Ha, Hc, Hs. by eexists _, _, _.
Qed.

End Pipeline.

(** C5, counterexample.  Build called with the unknown tag Composite and
    the Semi-Rigid keys returns a node set of 30 nodes. *)
Lemma C5_counterexample :
  known_type "Composite" = false /\
  exists nodes cols rows,
    generate_pavement_nodes "Composite" semirigid_defaults = Ok (nodes, cols, rows) /\
    length nodes = 30%nat.
Proof. split; [done|]. eexists _, _, _. split; by vm_compute. Qed.

(** C5 on the tag Composite. *)
Lemma C5_unknown_type_rejected_by_pipeline_witness :
  (forall gui asksaveasfilename w, pavement_type_var gui = "Composite" ->
     on_generate demo_float_of_str demo_str_of_float gui asksaveasfilename w
     = emit selection_error w) /\
  (forall layers,
     generate_pavement_nodes "Composite" layers
     = generate_pavement_nodes "Semi-Rigid" layers) /\
  (forall layers asphalt ctb semirigid_subbase,
     layers !! "asphalt" = Some asphalt -> layers !! "ctb" = Some ctb ->
     layers !! "semirigid_subbase" = Some semirigid_subbase ->
     exists nodes cols rows,
       generate_pavement_nodes "Composite" layers = Ok (nodes, cols, rows)).
Proof.
  apply (C5_unknown_type_rejected_by_pipeline demo_float_of_str demo_str_of_float "Composite").
  reflexivity.
Defined.

(** C6 on a Flexible form whose surface field reads abc. *)
Lemma C6_invalid_input_writes_nothing_witness :
  let w' := on_generate demo_float_of_str demo_str_of_float form_abc "nodes.txt" no_world in
  files w' = files no_world /\
  events w' = (events no_world ++
    [if known_type (pavement_type_var form_abc) then thickness_error else selection_error])%list.
Proof.
  apply (C6_invalid_input_writes_nothing demo_float_of_str demo_str_of_float).
  right. constructor. vm_compute. reflexivity.
Defined.

(** * Further properties of the code *)

(** ** Keys of the thickness dictionary *)

(** X1.  [generate_pavement_nodes] raises [KeyError] for the first key of
    the chosen type, in the order the code subscripts them, that the
    dictionary does not hold; when all of them are there it returns a
    result.  This holds for every tag and every dictionary. *)
Theorem first_missing_key_raises pt layers :
  match find (missing layers) (required_keys pt) with
  | Some key => generate_pavement_nodes pt layers = Raise (KeyError key)
  | None => exists nodes cols rows, generate_pavement_nodes pt layers = Ok (nodes, cols, rows)
  end.
Proof.
  unfold required_keys, missing. unfold_result.
  destruct (String.eqb pt "Flexible"); [|destruct (String.eqb pt "Rigid")]; cbn [find];
    repeat (match goal with
            | |- context [layers !! ?k] => destruct (layers !! k) eqn:?; cbn [find]; try done
            end);
    by eexists _, _, _.
Qed.

Lemma layer_thicknesses_frame pt layers1 layers2 :
  Forall (fun key => layers1 !! key = layers2 !! key) (required_keys pt) ->
  layer_thicknesses pt layers1 = layer_thicknesses pt layers2.
Proof.
  unfold required_keys. unfold_result.
  destruct (String.eqb pt "Flexible"); [|destruct (String.eqb pt "Rigid")];
    rewrite !Forall_cons; intros H; decompose [and] H; clear H;
    repeat match goal with E : layers1 !! _ = _ |- _ => rewrite E; clear E end; done.
Qed.

(** X2.  [generate_pavement_nodes] reads the keys of the chosen type and
    nothing else: two dictionaries that agree on those keys give the same
    result, whatever else they hold. *)
Theorem other_keys_ignored pt layers1 layers2 :
  Forall (fun key => layers1 !! key = layers2 !! key) (required_keys pt) ->
  generate_pavement_nodes pt layers1 = generate_pavement_nodes pt layers2.
Proof.
  intros H. unfold generate_pavement_nodes. by rewrite (layer_thicknesses_frame _ _ _ H).
Qed.

(** X2 on the Rigid type: a dictionary that also holds a surface thickness. *)
Lemma other_keys_ignored_witness :
  generate_pavement_nodes "Rigid" (<["surface" := 0.06]> rigid_zero_slab)
  = generate_pavement_nodes "Rigid" rigid_zero_slab.
Proof.
  apply (other_keys_ignored "Rigid").
  repeat constructor; vm_compute; reflexivity.
Defined.

(** ** More of binary64 arithmetic *)

Module Binary64Order.

Import Binary64.

Local Open Scope Z_scope.

(** Subtracting a non-negative number from a non-positive one gives at
    most the negation of the number subtracted. *)
Lemma SFsub_le_opp x t :
  valid_binary t = true -> nonpos x -> nonneg t ->
  SFleb (SF64sub x t) (SFopp t) = true.
Proof.
  intros Hv Hx Ht. unfold SFleb.
  destruct x as [sx|[]| |[] mx ex], t as [st|[]| |[] mt et]; try done;
    try (by destruct sx); try (by destruct sx, st); try (by destruct st).
  - cbn [SF64sub SFsub SFopp negb]. by rewrite SFcompare_refl.
  - unfold SF64sub, SFsub, cond_Zopp. cbn [SFopp negb].
    set (ez := Z.min ex et).
    assert (ez <= et) as Hez by lia.
    pose proof (shl_align_le mt et ez Hez) as HB.
    destruct (shl_align mx ex ez) as [A eA], (shl_align mt et ez) as [B eB].
    cbn [fst] in *.
    change (- Z.pos A - Z.pos B) with (Z.neg (A + B)). cbn [binary_normalize].
    destruct (binary_round_ge true (A + B) ez mt et Hv Hez ltac:(lia))
      as [->|(m' & e' & -> & Hge)]; [done|].
    cbn [SFcompare].
    destruct Hge as [Hlt|[-> Hle]].
    + by apply Z.compare_gt_iff in Hlt as ->.
    + rewrite Z.compare_refl, Pos.compare_cont_spec. cbn [Pos.switch_Eq].
      destruct (Pos.compare_spec m' mt); cbn; try done. lia.
Qed.

(** Subtracting a positive number from a non-positive one gives a negative
    number. *)
Lemma SFsub_neg x t :
  valid_binary t = true -> nonpos x -> pos t -> neg (SF64sub x t).
Proof.
  intros Hv Hx Ht.
  destruct x as [sx|[]| |[] mx ex], t as [st|[]| |[] mt et]; try done.
  unfold SF64sub, SFsub, cond_Zopp.
  set (ez := Z.min ex et).
  assert (ez <= et) as Hez by lia.
  pose proof (shl_align_le mt et ez Hez) as HB.
  destruct (shl_align mx ex ez) as [A eA], (shl_align mt et ez) as [B eB].
  cbn [fst] in *.
  change (- Z.pos A - Z.pos B) with (Z.neg (A + B)). cbn [binary_normalize].
  by destruct (binary_round_ge true (A + B) ez mt et Hv Hez ltac:(lia))
    as [->|(m' & e' & -> & Hge)].
Qed.

Lemma sub_le_opp c t :
  (c <=? 0)%float = true -> (0 <=? t)%float = true -> (c - t <=? - t)%float = true.
Proof.
  rewrite leb_zero_nonpos, zero_leb_nonneg, leb_spec, sub_spec, opp_spec.
  intros Hc Ht. by apply SFsub_le_opp; [apply Prim2SF_valid|..].
Qed.

Lemma ltb_zero_neg x : (x <? 0)%float = true <-> neg (Prim2SF x).
Proof.
  rewrite ltb_spec. change (Prim2SF 0) with (S754_zero false).
  by destruct (Prim2SF x) as [[]|[]| |[] m e].
Qed.

Lemma sub_lt_zero c t :
  (c <=? 0)%float = true -> (0 <? t)%float = true -> (c - t <? 0)%float = true.
Proof.
  rewrite leb_zero_nonpos, zero_ltb_pos, ltb_zero_neg, sub_spec.
  intros Hc Ht. by apply SFsub_neg; [apply Prim2SF_valid|..].
Qed.

Lemma leb_not_nan x y : (x <=? y)%float = true -> is_nan x = false /\ is_nan y = false.
Proof.
  rewrite leb_spec, !is_nan_spec. unfold SFleb.
  destruct (Prim2SF x) as [[]|[]| |[] mx ex], (Prim2SF y) as [[]|[]| |[] my ey]; done.
Qed.

Lemma ltb_not_nan x y : (x <? y)%float = true -> is_nan x = false /\ is_nan y = false.
Proof.
  rewrite ltb_spec, !is_nan_spec. unfold SFltb.
  destruct (Prim2SF x) as [[]|[]| |[] mx ex], (Prim2SF y) as [[]|[]| |[] my ey]; done.
Qed.

Lemma leb_refl x : is_nan x = false -> (x <=? x)%float = true.
Proof. intros Hx. rewrite leb_rk by done. apply lt3_irrefl. Qed.

Lemma leb_trans x y z :
  (x <=? y)%float = true -> (y <=? z)%float = true -> (x <=? z)%float = true.
Proof.
  intros H1 H2.
  destruct (leb_not_nan _ _ H1) as [Hx Hy], (leb_not_nan _ _ H2) as [_ Hz].
  rewrite leb_rk in * by done. unfold lt3 in *. lia.
Qed.

Lemma ltb_trans x y z :
  (x <? y)%float = true -> (y <? z)%float = true -> (x <? z)%float = true.
Proof.
  intros H1 H2.
  destruct (ltb_not_nan _ _ H1) as [Hx Hy], (ltb_not_nan _ _ H2) as [_ Hz].
  rewrite ltb_rk in * by done. by eapply lt3_trans.
Qed.

Lemma ltb_neq x y : (x <? y)%float = true -> (x =? y)%float = false /\ (y =? x)%float = false.
Proof.
  intros H. destruct (ltb_not_nan _ _ H) as [Hx Hy].
  rewrite ltb_rk in H by done. rewrite <- !not_true_iff_false, !eqb_rk by done.
  split; intros E; rewrite E in H; by apply lt3_irrefl in H.
Qed.

End Binary64Order.

(** ** More on the node set *)

Lemma generate_ok pt layers nodes cols rows :
  generate_pavement_nodes pt layers = Ok (nodes, cols, rows) ->
  exists ts, layer_thicknesses pt layers = Ok ts /\
    nodes = build_nodes (build_y_coords ts) /\
    cols = build_col_lines (build_y_coords ts) /\
    rows = build_row_lines (build_y_coords ts).
Proof.
  unfold generate_pavement_nodes.
  destruct (layer_thicknesses pt layers) as [ts|e]; unfold mbind, result_bind, mret, result_ret;
    [|done].
  intros [= <- <- <-]. by exists ts.
Qed.

(** Every point handed to the set is in it afterwards, itself or an equal
    point added before. *)
Lemma add_all_represents p l : forall nodes,
  In p l -> exists q, In q (add_all l nodes) /\ (q = p \/ node_eqb p q = true).
Proof.
  induction l as [|a l IH]; intros nodes; [done|].
  rewrite add_all_cons. intros [->|Hp]; [|by apply IH].
  destruct (add_all_prefix l (set_add p nodes)) as (l' & -> & _).
  unfold set_add. destruct (existsb (node_eqb p) nodes) eqn:E.
  - apply existsb_exists in E as (q & Hq & Hpq). exists q.
    split; [apply in_or_app; by left|by right].
  - exists p. split; [|by left]. rewrite !in_app_iff. left; right; by left.
Qed.

Lemma add_all_suffix l : forall nodes,
  exists l', add_all l nodes = (nodes ++ l')%list /\ incl l' l.
Proof.
  induction l as [|p l IH]; intros nodes; cbn [add_all fold_left].
  - exists []. rewrite app_nil_r. split; [done|]. by intros ?.
  - fold (add_all l (set_add p nodes)).
    destruct (IH (set_add p nodes)) as (l2 & -> & H2). unfold set_add.
    destruct (existsb _ _).
    + exists l2. split; [done|]. intros q Hq. right. by apply H2.
    + exists (p :: l2). rewrite <- app_assoc. split; [done|].
      intros q [<-|Hq]; [by left|right; by apply H2].
Qed.

(** X3.  For every result of build: each node of the set has z = 0.0 and
    the x of a station, and lies on one of the column polylines and on one
    of the row polylines; and each point of each polyline is in the set,
    itself or a node equal to it. *)
Theorem nodes_lie_on_polylines pt layers nodes cols rows :
  generate_pavement_nodes pt layers = Ok (nodes, cols, rows) ->
  (forall p, In p nodes ->
     snd p = 0.0 /\ In (fst (fst p)) X_COORDS /\
     (exists col, In col cols /\ In p col) /\
     (exists row, In row rows /\ In p row)) /\
  (forall line p, In line (cols ++ rows) -> In p line ->
     exists q, In q nodes /\ (q = p \/ node_eqb p q = true)).
Proof.
  intros (ts & _ & -> & -> & ->)%generate_ok. set (y_coords := build_y_coords ts). split.
  - intros p (x & y & -> & Hx & Hy)%In_build_nodes. cbn [fst snd].
    split; [done|]. split; [done|]. split.
    + exists (map (fun y => (x, y, 0.0)) y_coords).
      split; [|apply in_map_iff; by exists y].
      unfold build_col_lines. apply in_map_iff. by exists x.
    + exists (map (fun x => (x, y, 0.0)) X_COORDS).
      split; [|apply in_map_iff; by exists x].
      unfold build_row_lines. apply in_map_iff. by exists y.
  - intros line p Hline Hp. rewrite build_nodes_eq. apply add_all_represents.
    apply In_grid. unfold build_col_lines, build_row_lines in Hline.
    apply in_app_iff in Hline as [(x & <- & Hx)%in_map_iff|(y & <- & Hy)%in_map_iff].
    + apply in_map_iff in Hp as (y & <- & Hy). eauto.
    + apply in_map_iff in Hp as (x & <- & Hx). eauto.
Qed.

(** X3 on the defaults of the Flexible type. *)
Lemma nodes_lie_on_polylines_witness :
  let y_coords := build_y_coords [0.06; 0.08; 0.20; 0.20] in
  let nodes := build_nodes y_coords in
  let cols := build_col_lines y_coords in
  let rows := build_row_lines y_coords in
  (forall p, In p nodes ->
     snd p = 0.0 /\ In (fst (fst p)) X_COORDS /\
     (exists col, In col cols /\ In p col) /\
     (exists row, In row rows /\ In p row)) /\
  (forall line p, In line (cols ++ rows) -> In p line ->
     exists q, In q nodes /\ (q = p \/ node_eqb p q = true)).
Proof.
  apply (nodes_lie_on_polylines "Flexible" flexible_defaults).
  vm_compute. reflexivity.
Defined.

Lemma row_distinct y : ForallOrdPairs (fun p q => node_eqb p q = false) (row y).
Proof.
  unfold row. apply ForallOrdPairs_map.
  eapply ForallOrdPairs_impl; [|apply X_COORDS_distinct].
  intros a b Hab. cbn. by rewrite Hab.
Qed.

Lemma build_nodes_surface ds :
  exists rest, build_nodes (0 :: ds) = (row 0 ++ rest)%list /\ incl rest (grid ds).
Proof.
  rewrite build_nodes_eq, grid_cons, add_all_app.
  rewrite (add_all_fresh (row 0) []); [|apply row_distinct|by apply List.Forall_forall].
  apply add_all_suffix.
Qed.

Lemma zero_sub_subgrade c : (c =? 0) = true -> (c - 1.5 =? 0) = false.
Proof.
  rewrite !FloatAxioms.eqb_spec, sub_spec.
  destruct (Prim2SF c) as [[]|[]| |[] m e]; try done; intros _; by vm_compute.
Qed.

(** Below a depth equal to 0.0 the sequence leaves 0.0 at some point, at
    the latest with the subgrade. *)
Lemma first_nonzero_depth ts : forall c,
  (c =? 0) = true ->
  exists d1 d d2, depths_from c ts = (d1 ++ d :: d2)%list /\
    Forall (fun y => (y =? 0) = true) d1 /\ (d =? 0) = false.
Proof.
  induction ts as [|t ts IH]; intros c Hc; cbn [depths_from].
  - exists [], (c - 1.5), []. split; [done|]. split; [done|]. by apply zero_sub_subgrade.
  - destruct (c - t =? 0) eqn:E.
    + destruct (IH (c - t) E) as (d1 & d & d2 & -> & H1 & H2).
      exists ((c - t) :: d1), d, d2. split; [done|]. split; [by constructor|done].
    + by exists [], (c - t), (depths_from (c - t) ts).
Qed.

Lemma build_nodes_two_rows ts : (12 <= length (build_nodes (build_y_coords ts)))%nat.
Proof.
  rewrite build_y_coords_eq.
  destruct (first_nonzero_depth ts 0 eq_refl) as (d1 & d & d2 & -> & H1 & H2).
  rewrite build_nodes_eq, grid_cons, grid_app, grid_cons, !add_all_app.
  rewrite (add_all_fresh (row 0) []); [|apply row_distinct|by apply List.Forall_forall].
  cbn [app]. set (s1 := add_all (grid d1) (row 0)).
  assert (Hs1 : forall q, In q s1 -> (snd (fst q) =? 0) = true).
  { intros q [Hq|Hq]%add_all_In.
    - unfold row in Hq. by apply in_map_iff in Hq as (x & <- & _).
    - apply In_grid in Hq as (x & y & -> & _ & Hy). rewrite List.Forall_forall in H1.
      by apply H1. }
  assert (Hlen1 : (6 <= length s1)%nat).
  { unfold s1. destruct (add_all_prefix (grid d1) (row 0)) as (l' & -> & _).
    rewrite length_app. cbn. lia. }
  rewrite (add_all_fresh (row d) s1); [|apply row_distinct|].
  - destruct (add_all_prefix (grid d2) (s1 ++ row d)) as (l' & -> & _).
    rewrite !length_app. unfold row at 1. rewrite length_map. cbn [length X_COORDS]. lia.
  - apply List.Forall_forall. intros [[x y] z] (x' & [= <- <- <-] & _)%in_map_iff.
    unfold covered. apply not_true_iff_false. intros (q & Hq & Heq)%existsb_exists.
    destruct q as [[qx qy] qz]. specialize (Hs1 _ Hq). cbn in Hs1, Heq.
    apply andb_prop in Heq as [[_ Hy]%andb_prop _].
    by rewrite (Binary64.eqb_trans _ _ _ Hy Hs1) in H2.
Qed.

(** X4.  For every result of build, whatever the thicknesses (zero,
    negative, infinite or NaN): the six surface nodes (x, 0.0, 0.0) are in
    the set, and the set has at least 12 nodes, since the subgrade row
    cannot fall on the surface row unless a row before it left the
    surface. *)
Theorem node_set_never_small pt layers nodes cols rows :
  generate_pavement_nodes pt layers = Ok (nodes, cols, rows) ->
  (forall x, In x X_COORDS -> In (x, 0.0, 0.0) nodes) /\
  (12 <= length nodes)%nat.
Proof.
  intros (ts & _ & -> & _ & _)%generate_ok. split; [|apply build_nodes_two_rows].
  intros x Hx. rewrite build_y_coords_eq.
  destruct (build_nodes_surface (depths_from 0 ts)) as (rest & -> & _).
  apply in_or_app. left. unfold row. apply in_map_iff. by exists x.
Qed.

(** X4 on a Rigid pavement whose slab has thickness 0.0. *)
Lemma node_set_never_small_witness :
  let nodes := build_nodes (build_y_coords [0.0; 0.2]) in
  (forall x, In x X_COORDS -> In (x, 0.0, 0.0) nodes) /\
  (12 <= length nodes)%nat.
Proof.
  apply (node_set_never_small "Rigid" rigid_zero_slab _
           (build_col_lines (build_y_coords [0.0; 0.2]))
           (build_row_lines (build_y_coords [0.0; 0.2]))).
  vm_compute. reflexivity.
Defined.

(** ** The node set as a grid *)

Lemma add_all_covered l nodes :
  Forall (fun p => covered p nodes = true) l -> add_all l nodes = nodes.
Proof.
  induction 1 as [|p l Hp Hl IH]; [done|].
  rewrite add_all_cons. unfold set_add. unfold covered in Hp. by rewrite Hp.
Qed.

(** Adding a row to a grid: nothing when its depth equals a depth of the
    grid, the whole row otherwise. *)
Lemma add_row_to_grid kept y :
  add_all (row y) (grid kept) = grid (keep_depth kept y).
Proof.
  unfold keep_depth. destruct (existsb (fun y' => y =? y') kept) eqn:E.
  - apply add_all_covered. apply List.Forall_forall.
    intros p (x & <- & Hx)%in_map_iff.
    apply existsb_exists in E as (y' & Hy' & Hyy').
    apply existsb_exists. exists (x, y', 0). split; [apply In_grid; eauto|].
    cbn. rewrite Hyy'. rewrite (proj2 (Binary64.eqb_rk x x (X_COORDS_no_nan x Hx)
      (X_COORDS_no_nan x Hx)) eq_refl). done.
  - rewrite grid_app. cbn [grid flat_map]. rewrite app_nil_r.
    apply add_all_fresh; [apply row_distinct|].
    apply List.Forall_forall. intros p (x & <- & Hx)%in_map_iff.
    apply not_true_iff_false. intros (q & Hq & Heq)%existsb_exists.
    apply In_grid in Hq as (x' & y' & -> & _ & Hy'). cbn in Heq.
    apply andb_prop in Heq as [[_ Heq]%andb_prop _].
    apply not_true_iff_false in E. apply E. apply existsb_exists. eauto.
Qed.

Lemma add_grid_to_grid y_coords : forall kept,
  add_all (grid y_coords) (grid kept) = grid (fold_left keep_depth y_coords kept).
Proof.
  induction y_coords as [|y ys IH]; intros kept; [done|].
  by rewrite grid_cons, add_all_app, add_row_to_grid, IH.
Qed.

Lemma keep_depth_spec kept y :
  incl kept (keep_depth kept y) /\
  (forall y', In y' (keep_depth kept y) -> In y' kept \/ y' = y) /\
  (distinct_depths kept -> distinct_depths (keep_depth kept y)) /\
  (length (keep_depth kept y) <= S (length kept))%nat.
Proof.
  unfold keep_depth. destruct (existsb _ kept) eqn:E.
  - split; [by intros ?|]. split; [by left|]. split; [done|lia].
  - split; [intros y' Hy'; apply in_or_app; by left|].
    split; [intros y' [?|[<-|[]]]%in_app_iff; by eauto|].
    split; [|rewrite length_app; cbn; lia].
    intros Hd. apply ForallOrdPairs_snoc; [done|].
    apply List.Forall_forall. intros y' Hy'. rewrite Binary64.eqb_sym.
    apply not_true_iff_false. intros Heq. apply not_true_iff_false in E. apply E.
    apply existsb_exists. eauto.
Qed.

Lemma kept_depths_spec y_coords : forall kept,
  distinct_depths kept ->
  distinct_depths (fold_left keep_depth y_coords kept) /\
  (forall y, In y (fold_left keep_depth y_coords kept) -> In y kept \/ In y y_coords) /\
  (length (fold_left keep_depth y_coords kept) <= length kept + length y_coords)%nat.
Proof.
  induction y_coords as [|y ys IH]; intros kept Hd; cbn [fold_left].
  - split; [done|]. split; [by left|lia].
  - destruct (keep_depth_spec kept y) as (_ & H2 & H3 & H4).
    destruct (IH _ (H3 Hd)) as (I1 & I2 & I3).
    split; [done|]. split; [|cbn [length]; lia].
    intros y' [[?| ->]%H2|?]%I2; [by left|right; by left|right; by right].
Qed.

(** X5.  For every result of build, whatever the thicknesses: the node
    set is the full grid of the six stations over the depths that are kept,
    a depth being kept unless it equals an earlier depth.  The nodes thus
    come in whole rows, 6 x (number of kept depths) of them, and no two
    kept depths are equal. *)
Theorem node_set_is_a_grid pt layers ts nodes cols rows :
  layer_thicknesses pt layers = Ok ts ->
  generate_pavement_nodes pt layers = Ok (nodes, cols, rows) ->
  let kept := kept_depths (build_y_coords ts) in
  Permutation nodes (grid kept) /\
  length nodes = (6 * length kept)%nat /\
  distinct_depths kept /\
  incl kept (build_y_coords ts) /\
  (length kept <= layer_count pt + 2)%nat.
Proof.
  intros Hts Hg kept. destruct (generate_inv _ _ _ _ _ _ Hts Hg) as (-> & _ & _).
  assert (E : build_nodes (build_y_coords ts) = grid kept).
  { rewrite build_nodes_eq. apply (add_grid_to_grid _ []). }
  destruct (kept_depths_spec (build_y_coords ts) [] ltac:(constructor)) as (H1 & H2 & H3).
  rewrite E, length_grid. split; [done|]. split; [done|]. split; [done|]. split.
  - intros y [[]|Hy]%H2. done.
  - rewrite <- (layer_thicknesses_length _ _ _ Hts), <- length_build_y_coords. exact H3.
Qed.

(** X5 on a Rigid pavement whose slab has thickness 0.0. *)
Lemma node_set_is_a_grid_witness :
  let y_coords := build_y_coords [0.0; 0.2] in
  let nodes := build_nodes y_coords in
  let kept := kept_depths y_coords in
  Permutation nodes (grid kept) /\
  length nodes = (6 * length kept)%nat /\
  distinct_depths kept /\
  incl kept y_coords /\
  (length kept <= layer_count "Rigid" + 2)%nat.
Proof.
  apply (node_set_is_a_grid "Rigid" rigid_zero_slab [0.0; 0.2] _
           (build_col_lines (build_y_coords [0.0; 0.2]))
           (build_row_lines (build_y_coords [0.0; 0.2]))).
  - vm_compute. reflexivity.
  - vm_compute. reflexivity.
Defined.

(** ** A thickness that is NaN *)

Lemma is_nan_true x : is_nan x = true <-> Prim2SF x = S754_nan.
Proof.
  unfold is_nan. rewrite FloatAxioms.eqb_spec. unfold SFeqb.
  destruct (Prim2SF x) eqn:E; try rewrite Binary64.SFcompare_refl by done; cbn; split; done.
Qed.

Lemma sub_nan_l x t : is_nan x = true -> is_nan (x - t) = true.
Proof. rewrite !is_nan_true, sub_spec. by intros ->. Qed.

Lemma sub_nan_r x t : is_nan t = true -> is_nan (x - t) = true.
Proof. rewrite !is_nan_true, sub_spec. intros ->. by destruct (Prim2SF x). Qed.

Lemma depths_from_nan ts : forall c,
  is_nan c = true -> Forall (fun y => is_nan y = true) (depths_from c ts).
Proof.
  induction ts as [|t ts IH]; intros c Hc; cbn [depths_from].
  - constructor; [by apply sub_nan_l|done].
  - constructor; [by apply sub_nan_l|]. by apply IH, sub_nan_l.
Qed.

Lemma depths_after_nan ts : forall c k t,
  ts !! k = Some t -> is_nan t = true ->
  Forall (fun y => is_nan y = true) (drop (S k) (c :: depths_from c ts)).
Proof.
  induction ts as [|t0 ts IH]; intros c k t Hk Ht; [done|].
  destruct k as [|k]; cbn in Hk.
  - simplify_eq. cbn [drop depths_from].
    constructor; [by apply sub_nan_r|]. by apply depths_from_nan, sub_nan_r.
  - apply (IH (c - t0) k t Hk Ht).
Qed.

(** A node at a NaN depth equals no node, so [add] always takes it. *)
Lemma add_all_nan_rows l : forall nodes,
  length (filter (fun p : node => is_nan (snd (fst p)) = true) (add_all l nodes))
  = (length (filter (fun p : node => is_nan (snd (fst p)) = true) nodes) +
     length (filter (fun p : node => is_nan (snd (fst p)) = true) l))%nat.
Proof.
  induction l as [|[[x y] z] l IH]; intros nodes; [cbn; lia|].
  rewrite add_all_cons, IH. unfold set_add. rewrite filter_cons. cbn [fst snd].
  destruct (is_nan y) eqn:Ey.
  - assert (existsb (node_eqb (x, y, z)) nodes = false) as ->.
    { apply not_true_iff_false. intros ([[qx qy] qz] & _ & Heq)%existsb_exists.
      cbn in Heq. by rewrite (Binary64.eqb_nan_l y qy Ey), andb_false_r in Heq. }
    rewrite filter_app, length_app, filter_cons, filter_nil. cbn [fst snd]. rewrite Ey.
    repeat case_decide; try done; cbn [length]; lia.
  - destruct (existsb _ nodes).
    + repeat case_decide; try done.
    + rewrite filter_app, length_app, filter_cons, filter_nil. cbn [fst snd]. rewrite Ey.
      repeat case_decide; try done; cbn [length]; lia.
Qed.

Lemma grid_nan_rows y_coords :
  length (filter (fun p : node => is_nan (snd (fst p)) = true) (grid y_coords))
  = (6 * length (filter (fun y => is_nan y = true) y_coords))%nat.
Proof.
  induction y_coords as [|y ys IH]; [done|].
  rewrite grid_cons, filter_app, length_app, IH, filter_cons.
  unfold row, X_COORDS. cbn [map]. rewrite !filter_cons, filter_nil. cbn [fst snd].
  destruct (is_nan y) eqn:Ey; repeat case_decide; try done; cbn [length]; lia.
Qed.

(** X6.  A NaN thickness is not rejected by build.  From the layer with
    the NaN thickness on, every depth is NaN; a NaN depth equals no depth,
    so each NaN depth keeps a row of its own: the set holds exactly
    6 x (number of NaN depths) nodes whose y is NaN. *)
Theorem nan_thickness_spreads pt layers ts nodes cols rows k t :
  layer_thicknesses pt layers = Ok ts ->
  generate_pavement_nodes pt layers = Ok (nodes, cols, rows) ->
  ts !! k = Some t -> is_nan t = true ->
  let y_coords := build_y_coords ts in
  (forall j y, (k < j)%nat -> y_coords !! j = Some y -> is_nan y = true) /\
  length (filter (fun p : node => is_nan (snd (fst p)) = true) nodes)
  = (6 * length (filter (fun y => is_nan y = true) y_coords))%nat /\
  (6 * (length ts + 1 - k)
   <= length (filter (fun p : node => is_nan (snd (fst p)) = true) nodes))%nat.
Proof.
  intros Hts Hg Hk Ht y_coords. destruct (generate_inv _ _ _ _ _ _ Hts Hg) as (-> & _ & _).
  fold y_coords.
  pose proof (depths_after_nan ts 0 k t Hk Ht) as Hnan.
  rewrite <- build_y_coords_eq in Hnan. fold y_coords in Hnan.
  assert (Hcount : length (filter (fun p : node => is_nan (snd (fst p)) = true)
                            (build_nodes y_coords))
                   = (6 * length (filter (fun y => is_nan y = true) y_coords))%nat).
  { rewrite build_nodes_eq, add_all_nan_rows, grid_nan_rows. cbn. lia. }
  split; [|split; [done|]].
  - intros j y Hj Hy. rewrite Forall_lookup in Hnan. apply (Hnan (j - S k)%nat).
    rewrite lookup_drop. rewrite <- Hy. f_equal. lia.
  - rewrite Hcount. apply Nat.mul_le_mono_l.
    rewrite <- (take_drop (S k) y_coords) at 1. rewrite filter_app, length_app.
    assert (filter (fun y => is_nan y = true) (drop (S k) y_coords) = drop (S k) y_coords) as ->.
    { clear -Hnan. induction Hnan as [|y l Hy Hl IH]; [done|].
      rewrite filter_cons, decide_True by done. by rewrite IH. }
    rewrite length_drop. unfold y_coords. rewrite length_build_y_coords. lia.
Qed.

(** X6 on a Rigid pavement whose slab thickness is NaN. *)
Lemma nan_thickness_spreads_witness :
  let ts := [nan; 0.2] in
  let y_coords := build_y_coords ts in
  let nodes := build_nodes y_coords in
  (forall j y, (0 < j)%nat -> y_coords !! j = Some y -> is_nan y = true) /\
  length (filter (fun p : node => is_nan (snd (fst p)) = true) nodes)
  = (6 * length (filter (fun y => is_nan y = true) y_coords))%nat /\
  (6 * (length ts + 1 - 0)
   <= length (filter (fun p : node => is_nan (snd (fst p)) = true) nodes))%nat.
Proof.
  apply (nan_thickness_spreads "Rigid" rigid_nan_slab [nan; 0.2] _
           (build_col_lines (build_y_coords [nan; 0.2]))
           (build_row_lines (build_y_coords [nan; 0.2])) 0%nat nan).
  - vm_compute. reflexivity.
  - vm_compute. reflexivity.
  - reflexivity.
  - reflexivity.
Defined.

(** ** Depths and ids under assumptions on the thicknesses *)

(** X7.  When every thickness is a finite number, no depth is NaN and no
    coordinate of a node is NaN.  (A depth can still be infinite: the
    subtractions may overflow.) *)
Theorem finite_thicknesses_no_nan pt layers ts nodes cols rows :
  layer_thicknesses pt layers = Ok ts ->
  generate_pavement_nodes pt layers = Ok (nodes, cols, rows) ->
  Forall (fun t => is_finite t = true) ts ->
  Forall (fun y => is_nan y = false) (build_y_coords ts) /\
  Forall (fun p => is_nan (fst (fst p)) = false /\ is_nan (snd (fst p)) = false /\
                   snd p = 0.0) nodes.
Proof.
  intros Hts Hg Hfin. destruct (generate_inv _ _ _ _ _ _ Hts Hg) as (-> & _ & _).
  assert (Hy : Forall (fun y => is_nan y = false) (build_y_coords ts)).
  { rewrite build_y_coords_eq. constructor; [done|]. by apply depths_from_no_nan. }
  split; [done|]. destruct (build_nodes_no_nan _ Hy) as [Hn Hz].
  rewrite List.Forall_forall in Hn, Hz |- *. intros p Hp.
  destruct (Hn p Hp). split; [done|]. split; [done|]. by apply Hz.
Qed.

(** X7 on the defaults of the Flexible type. *)
Lemma finite_thicknesses_no_nan_witness :
  let ts := [0.06; 0.08; 0.20; 0.20] in
  Forall (fun y => is_nan y = false) (build_y_coords ts) /\
  Forall (fun p => is_nan (fst (fst p)) = false /\ is_nan (snd (fst p)) = false /\
                   snd p = 0.0) (build_nodes (build_y_coords ts)).
Proof.
  apply (finite_thicknesses_no_nan "Flexible" flexible_defaults [0.06; 0.08; 0.20; 0.20] _
           (build_col_lines (build_y_coords [0.06; 0.08; 0.20; 0.20]))
           (build_row_lines (build_y_coords [0.06; 0.08; 0.20; 0.20]))).
  - vm_compute. reflexivity.
  - vm_compute. reflexivity.
  - repeat constructor.
Defined.

(** X8.  When every thickness is a finite number, the numbered list does
    not depend on the order in which the set hands out its nodes: every
    order gives the same ids to the same nodes, so the exported file is
    determined by the thicknesses. *)
Theorem numbering_independent_of_set_order pt layers ts nodes cols rows iteration :
  layer_thicknesses pt layers = Ok ts ->
  generate_pavement_nodes pt layers = Ok (nodes, cols, rows) ->
  Forall (fun t => is_finite t = true) ts ->
  Permutation iteration nodes ->
  number_nodes (sorted iteration) = number_nodes (sorted nodes).
Proof.
  intros Hts Hg Hfin Hit. destruct (generate_inv _ _ _ _ _ _ Hts Hg) as (-> & _ & _).
  assert (Hy : Forall (fun y => is_nan y = false) (build_y_coords ts)).
  { rewrite build_y_coords_eq. constructor; [done|]. by apply depths_from_no_nan. }
  destruct (build_nodes_no_nan _ Hy) as [Hn Hz].
  by rewrite (sorted_any_order _ _ Hn Hz (build_nodes_distinct _) Hit).
Qed.

(** X8 on the defaults of the Flexible type, the set handing out its
    elements in reverse order of insertion. *)
Lemma numbering_independent_of_set_order_witness :
  let nodes := build_nodes (build_y_coords [0.06; 0.08; 0.20; 0.20]) in
  number_nodes (sorted (rev nodes)) = number_nodes (sorted nodes).
Proof.
  apply (numbering_independent_of_set_order "Flexible" flexible_defaults
           [0.06; 0.08; 0.20; 0.20] _
           (build_col_lines (build_y_coords [0.06; 0.08; 0.20; 0.20]))
           (build_row_lines (build_y_coords [0.06; 0.08; 0.20; 0.20]))).
  - vm_compute. reflexivity.
  - vm_compute. reflexivity.
  - repeat constructor.
  - apply Permutation_sym, Permutation_rev.
Defined.

(** The deepest depth: it is at most -1.5 and at most every depth. *)
Lemma depths_from_bottom ts : forall c,
  (c <=? 0) = true -> Forall (fun t => (0 <=? t) = true) ts ->
  exists bottom, last (depths_from c ts) = Some bottom /\
    (bottom <=? -1.5) = true /\
    Forall (fun y => (bottom <=? y) = true /\ (y <=? 0) = true) (c :: depths_from c ts).
Proof.
  induction ts as [|t ts IH]; intros c Hc Hts; cbn [depths_from].
  - exists (c - 1.5). split; [done|].
    destruct (Binary64.sub_le_self c 1.5 Hc eq_refl) as [H1 H2].
    split; [by apply (Binary64Order.sub_le_opp c 1.5)|].
    repeat constructor; try done.
    apply Binary64Order.leb_refl. by apply leb_zero_no_nan.
  - apply Forall_cons in Hts as [Ht Hts].
    destruct (Binary64.sub_le_self c t Hc Ht) as [H1 H2].
    destruct (IH (c - t) H2 Hts) as (bottom & Hlast & Hb & Hall).
    exists bottom. split; [|split; [done|]].
    + rewrite <- Hlast. by destruct (depths_from (c - t) ts).
    + constructor; [|done]. split; [|done].
      apply Forall_cons in Hall as [[Hbc _] _]. by eapply Binary64Order.leb_trans.
Qed.

(** X9.  When no thickness is negative (zero allowed), the depth sequence
    never rises, and the nodes stay inside a rectangle: every node has
    0.0 <= x <= 3.0 and bottom <= y <= 0.0, where bottom, the last depth of
    the sequence, is at most -1.5. *)
Theorem nodes_within_extents pt layers ts nodes cols rows :
  layer_thicknesses pt layers = Ok ts ->
  generate_pavement_nodes pt layers = Ok (nodes, cols, rows) ->
  Forall (fun t => (0 <=? t) = true) ts ->
  non_increasing (build_y_coords ts) /\
  exists bottom,
    last (build_y_coords ts) = Some bottom /\
    (bottom <=? -1.5) = true /\
    forall x y z, In (x, y, z) nodes ->
      (0 <=? x) = true /\ (x <=? 3) = true /\
      (bottom <=? y) = true /\ (y <=? 0) = true.
Proof.
  intros Hts Hg Hpos. destruct (generate_inv _ _ _ _ _ _ Hts Hg) as (-> & _ & _).
  destruct (depths_from_bottom ts 0 eq_refl Hpos) as (bottom & Hlast & Hb & Hall).
  rewrite build_y_coords_eq.
  split; [by destruct (depths_from_nonpos ts 0 eq_refl Hpos)|].
  exists bottom. split; [|split; [done|]].
  - rewrite <- Hlast. by destruct (depths_from 0 ts).
  - intros x y z (x' & y' & [= -> -> ->] & Hx & Hy)%In_build_nodes.
    rewrite List.Forall_forall in Hall. destruct (Hall y' Hy) as [H1 H2].
    repeat split; try done;
      unfold X_COORDS in Hx; cbn in Hx; repeat destruct Hx as [<-|Hx]; done.
Qed.

(** X9 on the defaults of the Flexible type. *)
Lemma nodes_within_extents_witness :
  let ts := [0.06; 0.08; 0.20; 0.20] in
  non_increasing (build_y_coords ts) /\
  exists bottom,
    last (build_y_coords ts) = Some bottom /\
    (bottom <=? -1.5) = true /\
    forall x y z, In (x, y, z) (build_nodes (build_y_coords ts)) ->
      (0 <=? x) = true /\ (x <=? 3) = true /\
      (bottom <=? y) = true /\ (y <=? 0) = true.
Proof.
  apply (nodes_within_extents "Flexible" flexible_defaults [0.06; 0.08; 0.20; 0.20] _
           (build_col_lines (build_y_coords [0.06; 0.08; 0.20; 0.20]))
           (build_row_lines (build_y_coords [0.06; 0.08; 0.20; 0.20]))).
  - vm_compute. reflexivity.
  - vm_compute. reflexivity.
  - repeat constructor.
Defined.

(** ** Zero and negative thicknesses *)

Lemma sub_zero_eqb y t :
  is_nan y = false -> (t =? 0) = true -> (y =? y - t) = true.
Proof.
  rewrite Binary64.is_nan_spec, !FloatAxioms.eqb_spec, sub_spec. unfold SFeqb.
  change (Prim2SF 0) with (S754_zero false).
  destruct (Prim2SF y) as [sy|sy| |sy my ey] eqn:Ey, (Prim2SF t) as [st|[]| |[] mt et];
    try done; intros _ _; cbn [SF64sub SFsub];
    try (by rewrite Binary64.SFcompare_refl).
  by destruct sy, st.
Qed.

Lemma zero_sub_negative t : (t <? 0) = true -> (0 <? 0 - t) = true.
Proof.
  rewrite !ltb_spec, sub_spec. change (Prim2SF 0) with (S754_zero false).
  by destruct (Prim2SF t) as [[]|[]| |[] m e].
Qed.

Lemma ltb_eqb_r x a b : (x <? a) = true -> (a =? b) = true -> (x <? b) = true.
Proof.
  intros H1 H2.
  destruct (Binary64Order.ltb_not_nan _ _ H1) as [Hx Ha].
  destruct (Binary64.eqb_not_nan _ _ H2) as [_ Hb].
  rewrite Binary64.ltb_rk in * by done. rewrite Binary64.eqb_rk in H2 by done.
  by rewrite <- H2.
Qed.

(** The loop of lines 41-43: the depth after a layer is the depth before
    it minus its thickness. *)
Lemma depths_lookup ts : forall c k t,
  ts !! k = Some t ->
  exists y, (c :: depths_from c ts) !! k = Some y /\
    (c :: depths_from c ts) !! S k = Some (y - t).
Proof.
  induction ts as [|t0 ts IH]; intros c k t Hk; [done|].
  destruct k as [|k]; cbn in Hk.
  - simplify_eq. by exists c.
  - destruct (IH (c - t0) k t Hk) as (y & H1 & H2). by exists y.
Qed.

(** X10.  When every thickness is a finite number and one of them is zero
    (0.0 or -0.0), two successive depths coincide and the node set has
    fewer than 6 x (layer count + 2) nodes: build accepts a layer of no
    thickness and silently merges its two rows. *)
Theorem zero_thickness_merges_rows pt layers ts nodes cols rows k t :
  layer_thicknesses pt layers = Ok ts ->
  generate_pavement_nodes pt layers = Ok (nodes, cols, rows) ->
  Forall (fun t => is_finite t = true) ts ->
  ts !! k = Some t -> (t =? 0) = true ->
  (exists y y', build_y_coords ts !! k = Some y /\ build_y_coords ts !! S k = Some y' /\
     (y =? y') = true) /\
  (length nodes < 6 * (layer_count pt + 2))%nat.
Proof.
  intros Hts Hg Hfin Hk Ht. destruct (generate_inv _ _ _ _ _ _ Hts Hg) as (-> & _ & _).
  assert (Hy : Forall (fun y => is_nan y = false) (build_y_coords ts)).
  { rewrite build_y_coords_eq. constructor; [done|]. by apply depths_from_no_nan. }
  rewrite <- (layer_thicknesses_length _ _ _ Hts), <- length_build_y_coords.
  rewrite build_y_coords_eq in *.
  destruct (depths_lookup ts 0 k t Hk) as (y & H1 & H2).
  assert (Hyy : (y =? y - t) = true).
  { apply sub_zero_eqb; [|done]. rewrite List.Forall_forall in Hy. apply Hy.
    apply list_elem_of_In. by eapply list_elem_of_lookup_2. }
  split; [by exists y, (y - t)|].
  by apply (build_nodes_repeat _ k (S k) y (y - t)); [lia|..].
Qed.

(** X10 on a Rigid pavement whose slab has thickness 0.0. *)
Lemma zero_thickness_merges_rows_witness :
  let y_coords := build_y_coords [0.0; 0.2] in
  (exists y y', y_coords !! 0%nat = Some y /\ y_coords !! 1%nat = Some y' /\
     (y =? y') = true) /\
  (length (build_nodes y_coords) < 6 * (layer_count "Rigid" + 2))%nat.
Proof.
  apply (zero_thickness_merges_rows "Rigid" rigid_zero_slab [0.0; 0.2] _
           (build_col_lines (build_y_coords [0.0; 0.2]))
           (build_row_lines (build_y_coords [0.0; 0.2])) 0%nat 0.0).
  - vm_compute. reflexivity.
  - vm_compute. reflexivity.
  - repeat constructor.
  - reflexivity.
  - reflexivity.
Defined.

(** X11.  When every thickness is a finite number and the first one is
    negative, the first interface lies above the surface, and the node that
    gets id 1 lies above the surface too (y > 0.0), in whatever order the
    set hands out its nodes: build does not reject a negative thickness,
    and the numbering then no longer starts at the surface. *)
Theorem negative_first_thickness_rises pt layers ts nodes cols rows iteration t :
  layer_thicknesses pt layers = Ok ts ->
  generate_pavement_nodes pt layers = Ok (nodes, cols, rows) ->
  Forall (fun t => is_finite t = true) ts ->
  head ts = Some t -> (t <? 0) = true ->
  Permutation iteration nodes ->
  (exists y, build_y_coords ts !! 1%nat = Some y /\ (0 <? y) = true) /\
  (exists x y, head (number_nodes (sorted iteration)) = Some (1%Z, x, y, 0.0) /\
     (0 <? y) = true).
Proof.
  intros Hts Hg Hfin Hhd Ht Hit. destruct (generate_inv _ _ _ _ _ _ Hts Hg) as (-> & _ & _).
  assert (Hy : Forall (fun y => is_nan y = false) (build_y_coords ts)).
  { rewrite build_y_coords_eq. constructor; [done|]. by apply depths_from_no_nan. }
  destruct (build_nodes_no_nan _ Hy) as [Hn Hz].
  pose proof (build_nodes_distinct (build_y_coords ts)) as Hd.
  rewrite (sorted_any_order _ _ Hn Hz Hd Hit).
  pose proof (sorted_strict _ Hn Hz Hd) as Hord.
  destruct ts as [|t0 ts]; [done|]. cbn in Hhd. simplify_eq.
  pose proof (zero_sub_negative t Ht) as Hup.
  assert (Hy1 : build_y_coords (t :: ts) !! 1%nat = Some (0 - t))
    by by rewrite build_y_coords_eq.
  split; [by exists (0 - t)|].
  assert (Hq : exists q, In q (build_nodes (build_y_coords (t :: ts))) /\
                         (0 <? snd (fst q)) = true).
  { rewrite build_nodes_eq.
    destruct (add_all_represents (0, 0 - t, 0) (grid (build_y_coords (t :: ts))) [])
      as ([[qx qy] qz] & Hq & Heq).
    - apply In_grid. exists 0, (0 - t). split; [done|]. split; [by left|].
      apply list_elem_of_In. by eapply list_elem_of_lookup_2.
    - exists (qx, qy, qz). split; [done|]. cbn.
      destruct Heq as [[= _ -> _]|Heq]; [done|].
      cbn in Heq. apply andb_prop in Heq as [[_ Heq]%andb_prop _]. by eapply ltb_eqb_r. }
  destruct Hq as (q & Hq & Hqy).
  set (s := sorted (build_nodes (build_y_coords (t :: ts)))) in *.
  assert (Hzs : Forall (fun p => snd p = 0) s) by (unfold s; by rewrite sorted_perm).
  apply (Permutation_in _ (Permutation_sym (sorted_perm _))) in Hq. fold s in Hq.
  destruct s as [|[[hx hy] hz] s']; [done|].
  apply Forall_cons in Hzs as [Hhz _]. cbn in Hhz. subst hz.
  exists hx, hy. split; [done|].
  destruct Hq as [<-|Hq]; [done|].
  inversion Hord as [|? ? Hh _]; subst. rewrite List.Forall_forall in Hh.
  specialize (Hh q Hq). destruct q as [[qx qy] qz]. cbn in Hh, Hqy.
  destruct Hh as [Hlt|[Heq _]].
  - by eapply Binary64Order.ltb_trans.
  - rewrite Binary64.eqb_sym in Heq. by eapply ltb_eqb_r.
Qed.

(** X11 on a Rigid pavement whose slab has thickness -1.0, the set handing
    out its elements in reverse order of insertion. *)
Lemma negative_first_thickness_rises_witness :
  (exists y, build_y_coords [-1.0; 0.5] !! 1%nat = Some y /\ (0 <? y) = true) /\
  (exists x y,
     head (number_nodes (sorted (rev (build_nodes (build_y_coords [-1.0; 0.5])))))
     = Some (1%Z, x, y, 0.0) /\
     (0 <? y) = true).
Proof.
  apply (negative_first_thickness_rises "Rigid" rigid_negative_slab [-1.0; 0.5]
           (build_nodes (build_y_coords [-1.0; 0.5]))
           (build_col_lines (build_y_coords [-1.0; 0.5]))
           (build_row_lines (build_y_coords [-1.0; 0.5])) _ (-1.0)).
  - vm_compute. reflexivity.
  - vm_compute. reflexivity.
  - repeat constructor.
  - reflexivity.
  - reflexivity.
  - apply Permutation_sym, Permutation_rev.
Defined.

(** ** Ids of the rows *)

Lemma depths_from_negative ts : forall c,
  (c <=? 0) = true -> Forall (fun t => (0 <? t) = true) ts ->
  Forall (fun y => (y <? 0) = true) (depths_from c ts).
Proof.
  induction ts as [|t ts IH]; intros c Hc Hts; cbn [depths_from].
  - constructor; [|done]. by apply Binary64Order.sub_lt_zero.
  - apply Forall_cons in Hts as [Ht Hts].
    destruct (Binary64.sub_le_self c t Hc (ltb_leb_zero t Ht)) as [_ H2].
    constructor; [by apply Binary64Order.sub_lt_zero|by apply IH].
Qed.

Lemma ForallOrdPairs_app_r {A} (R : A -> A -> Prop) l1 l2 :
  ForallOrdPairs R (l1 ++ l2) -> ForallOrdPairs R l2.
Proof.
  induction l1 as [|a l1 IH]; [done|]. cbn. intros H. inversion H; subst. by apply IH.
Qed.

Lemma X_COORDS_increasing : ForallOrdPairs (fun a b => (a <? b) = true) X_COORDS.
Proof. unfold X_COORDS. repeat constructor. Qed.

Lemma row_before y : is_nan y = false -> ForallOrdPairs before (row y).
Proof.
  intros Hy. unfold row. apply ForallOrdPairs_map.
  eapply ForallOrdPairs_impl; [|apply X_COORDS_increasing].
  intros a b Hab. cbn. right. split; [|done]. by apply Binary64.eqb_rk.
Qed.

Lemma number_nodes_app_l l1 l2 i p :
  l1 !! i = Some p ->
  number_nodes (l1 ++ l2) !! i
  = Some (let '(x, y, z) := p in ((Z.of_nat i + 1)%Z, x, y, z)).
Proof.
  intros Hp. by rewrite number_nodes_lookup, lookup_app_l_Some with (x := p).
Qed.

(** With the rows below the surface row strictly below the surface, the
    sorted list starts with the surface row. *)
Lemma sorted_surface_first ds :
  Forall (fun y => (y <? 0) = true) ds ->
  exists rest, sorted (build_nodes (0 :: ds)) = (row 0 ++ rest)%list /\
    Forall (fun p => (snd (fst p) <? 0) = true) rest.
Proof.
  intros Hds.
  assert (Hy : Forall (fun y => is_nan y = false) (0 :: ds)).
  { constructor; [done|]. eapply Forall_impl; [exact Hds|].
    intros y Hlt. by destruct (Binary64Order.ltb_not_nan _ _ Hlt). }
  destruct (build_nodes_no_nan _ Hy) as [Hn Hz].
  pose proof (build_nodes_distinct (0 :: ds)) as Hd.
  destruct (build_nodes_surface ds) as (rest & E & Hrest). rewrite E in *.
  apply Forall_app in Hn as [_ Hn']. apply Forall_app in Hz as [_ Hz'].
  assert (Hd' : distinct_nodes rest) by by eapply ForallOrdPairs_app_r.
  assert (Hlow : Forall (fun p => (snd (fst p) <? 0) = true) rest).
  { apply List.Forall_forall. intros p (x & y & -> & _ & Hy')%Hrest%In_grid.
    rewrite List.Forall_forall in Hds. by apply Hds. }
  exists (sorted rest). split; [|by rewrite sorted_perm].
  apply strictly_sorted_unique.
  - rewrite sorted_perm. rewrite <- E. by destruct (build_nodes_no_nan _ Hy).
  - apply sorted_strict; [rewrite <- E; by destruct (build_nodes_no_nan _ Hy)..|done].
  - apply ForallOrdPairs_app; [by apply row_before|by apply sorted_strict|].
    intros a b (x & <- & _)%in_map_iff Hb.
    apply (Permutation_in _ (sorted_perm rest)) in Hb.
    rewrite List.Forall_forall in Hlow. specialize (Hlow b Hb).
    destruct b as [[bx by'] bz]. cbn in *. by left.
  - by rewrite !sorted_perm.
Qed.

(** X12.  When every thickness is strictly positive, and in whatever order
    the set hands out its nodes, the ids 1 to 6 go to the six surface nodes
    from left to right, and every node with a larger id lies strictly below
    the surface.  This holds even when rounding makes deeper rows
    coincide. *)
Theorem surface_row_numbered_first pt layers ts nodes cols rows iteration :
  layer_thicknesses pt layers = Ok ts ->
  generate_pavement_nodes pt layers = Ok (nodes, cols, rows) ->
  Forall (fun t => (0 <? t) = true) ts ->
  Permutation iteration nodes ->
  let node_list := number_nodes (sorted iteration) in
  (forall i x, X_COORDS !! i = Some x ->
     node_list !! i = Some ((Z.of_nat i + 1)%Z, x, 0.0, 0.0)) /\
  (forall j nid x y z, (6 <= j)%nat -> node_list !! j = Some (nid, x, y, z) ->
     (y <? 0) = true).
Proof.
  intros Hts Hg Hpos Hit node_list. unfold node_list.
  destruct (generate_inv _ _ _ _ _ _ Hts Hg) as (-> & _ & _).
  pose proof (depths_from_negative ts 0 eq_refl Hpos) as Hds.
  assert (Hy : Forall (fun y => is_nan y = false) (build_y_coords ts)).
  { rewrite build_y_coords_eq. constructor; [done|]. eapply Forall_impl; [exact Hds|].
    intros y Hlt. by destruct (Binary64Order.ltb_not_nan _ _ Hlt). }
  destruct (build_nodes_no_nan _ Hy) as [Hn Hz].
  rewrite (sorted_any_order _ _ Hn Hz (build_nodes_distinct _) Hit), build_y_coords_eq.
  destruct (sorted_surface_first _ Hds) as (rest & -> & Hrest). split.
  - intros i x Hx. rewrite (number_nodes_app_l _ _ _ (x, 0.0, 0.0)); [done|].
    unfold row. change (map ?f ?l) with (f <$> l). by rewrite list_lookup_fmap, Hx.
  - intros j nid x y z Hj. rewrite number_nodes_lookup, lookup_app_r; [|cbn; lia].
    destruct (rest !! _) as [[[x' y'] z']|] eqn:E; [|done]. cbn. intros [= _ _ <- _].
    rewrite List.Forall_forall in Hrest.
    apply (Hrest (x', y', z')). apply list_elem_of_In. by eapply list_elem_of_lookup_2.
Qed.

(** X12 on a Rigid pavement whose subbase is absorbed by rounding, the set
    handing out its elements in reverse order of insertion. *)
Lemma surface_row_numbered_first_witness :
  let node_list := number_nodes (sorted (rev (build_nodes (build_y_coords [1.0; 1e-17])))) in
  (forall i x, X_COORDS !! i = Some x ->
     node_list !! i = Some ((Z.of_nat i + 1)%Z, x, 0.0, 0.0)) /\
  (forall j nid x y z, (6 <= j)%nat -> node_list !! j = Some (nid, x, y, z) ->
     (y <? 0) = true).
Proof.
  apply (surface_row_numbered_first "Rigid" rigid_thin [1.0; 1e-17]
           (build_nodes (build_y_coords [1.0; 1e-17]))
           (build_col_lines (build_y_coords [1.0; 1e-17]))
           (build_row_lines (build_y_coords [1.0; 1e-17]))).
  - vm_compute. reflexivity.
  - vm_compute. reflexivity.
  - repeat constructor.
  - apply Permutation_sym, Permutation_rev.
Defined.

Lemma chain_pairwise (rel : float -> float -> bool) l :
  (forall a b c, rel a b = true -> rel b c = true -> rel a c = true) ->
  chain rel l = true -> ForallOrdPairs (fun a b => rel a b = true) l.
Proof.
  intros Htrans. induction l as [|a [|b l] IH]; intros H; [constructor|by repeat constructor|].
  change (rel a b && chain rel (b :: l) = true) in H. apply andb_prop in H as [Hab H].
  specialize (IH H). constructor; [|done]. constructor; [done|].
  inversion IH as [|? ? Hb _]; subst. eapply Forall_impl; [exact Hb|].
  intros c Hbc. by eapply Htrans.
Qed.

Lemma strictly_decreasing_pairwise l :
  strictly_decreasing l -> ForallOrdPairs (fun a b => (b <? a) = true) l.
Proof.
  apply (chain_pairwise (fun a b => b <? a)).
  intros a b c Hab Hbc. by eapply Binary64Order.ltb_trans.
Qed.

Lemma grid_before y_coords :
  Forall (fun y => is_nan y = false) y_coords ->
  ForallOrdPairs (fun a b => (b <? a) = true) y_coords ->
  ForallOrdPairs before (grid y_coords).
Proof.
  intros Hn Hd. induction Hd as [|y ys Hy Hys IH]; [constructor|].
  apply Forall_cons in Hn as [Hyn Hn].
  rewrite grid_cons. apply ForallOrdPairs_app; [by apply row_before|by apply IH|].
  intros a b (x & <- & _)%in_map_iff (x' & y' & -> & _ & Hy')%In_grid.
  cbn. left. rewrite List.Forall_forall in Hy. by apply Hy.
Qed.

Lemma grid_lookup y_coords : forall i j x y,
  X_COORDS !! i = Some x -> y_coords !! j = Some y ->
  grid y_coords !! (6 * j + i)%nat = Some (x, y, 0.0).
Proof.
  induction y_coords as [|y0 ys IH]; intros i j x y Hx Hy; [done|].
  assert (Hi : (i < 6)%nat) by (apply lookup_lt_Some in Hx; exact Hx).
  rewrite grid_cons. destruct j as [|j]; cbn in Hy.
  - simplify_eq. rewrite lookup_app_l by (unfold row; rewrite length_map; cbn; lia).
    rewrite Nat.mul_0_r, Nat.add_0_l. unfold row. change (map ?f ?l) with (f <$> l).
    by rewrite list_lookup_fmap, Hx.
  - rewrite lookup_app_r by (unfold row; rewrite length_map; cbn; lia).
    unfold row at 1. rewrite length_map. cbn [length X_COORDS].
    replace (6 * S j + i - 6)%nat with (6 * j + i)%nat by lia. by apply IH.
Qed.

(** X13.  When the depth sequence is strictly decreasing, and in whatever
    order the set hands out its nodes, the ids run row by row: the node at
    station i (from 0) and depth j (from 0) gets the id 6 j + i + 1, and
    there are 6 x (number of depths) nodes. *)
Theorem ids_run_row_by_row pt layers ts nodes cols rows iteration :
  layer_thicknesses pt layers = Ok ts ->
  generate_pavement_nodes pt layers = Ok (nodes, cols, rows) ->
  strictly_decreasing (build_y_coords ts) ->
  Permutation iteration nodes ->
  let y_coords := build_y_coords ts in
  let node_list := number_nodes (sorted iteration) in
  length node_list = (6 * length y_coords)%nat /\
  forall i j x y, X_COORDS !! i = Some x -> y_coords !! j = Some y ->
    node_list !! (6 * j + i)%nat
    = Some ((6 * Z.of_nat j + Z.of_nat i + 1)%Z, x, y, 0.0).
Proof.
  intros Hts Hg Hdec Hit y_coords node_list. unfold node_list.
  destruct (generate_inv _ _ _ _ _ _ Hts Hg) as (-> & _ & _). fold y_coords in Hit |- *.
  pose proof (strictly_decreasing_pairwise _ Hdec) as Hpair. fold y_coords in Hpair.
  assert (Hy : Forall (fun y => is_nan y = false) y_coords).
  { unfold y_coords in *. rewrite build_y_coords_eq in *. constructor; [done|].
    inversion Hpair as [|? ? H0 _]; subst. eapply Forall_impl; [exact H0|].
    intros y Hlt. by destruct (Binary64Order.ltb_not_nan _ _ Hlt). }
  assert (Hdist : distinct_depths y_coords).
  { eapply ForallOrdPairs_impl; [|exact Hpair]. intros a b Hab.
    by destruct (Binary64Order.ltb_neq _ _ Hab). }
  destruct (build_nodes_no_nan _ Hy) as [Hn Hz].
  rewrite (sorted_any_order _ _ Hn Hz (build_nodes_distinct _) Hit).
  assert (E : sorted (build_nodes y_coords) = grid y_coords).
  { apply strictly_sorted_unique.
    - by rewrite sorted_perm.
    - apply sorted_strict; [done..|apply build_nodes_distinct].
    - by apply grid_before.
    - by rewrite sorted_perm, build_nodes_grid. }
  rewrite E. split; [by rewrite length_number_nodes, length_grid|].
  intros i j x y Hx Hyj. rewrite number_nodes_lookup, (grid_lookup _ _ _ _ _ Hx Hyj).
  cbn. do 4 f_equal. lia.
Qed.

(** X13 on the defaults of the Flexible type, the set handing out its
    elements in reverse order of insertion. *)
Lemma ids_run_row_by_row_witness :
  let y_coords := build_y_coords [0.06; 0.08; 0.20; 0.20] in
  let node_list := number_nodes (sorted (rev (build_nodes y_coords))) in
  length node_list = (6 * length y_coords)%nat /\
  forall i j x y, X_COORDS !! i = Some x -> y_coords !! j = Some y ->
    node_list !! (6 * j + i)%nat
    = Some ((6 * Z.of_nat j + Z.of_nat i + 1)%Z, x, y, 0.0).
Proof.
  apply (ids_run_row_by_row "Flexible" flexible_defaults [0.06; 0.08; 0.20; 0.20]
           (build_nodes (build_y_coords [0.06; 0.08; 0.20; 0.20]))
           (build_col_lines (build_y_coords [0.06; 0.08; 0.20; 0.20]))
           (build_row_lines (build_y_coords [0.06; 0.08; 0.20; 0.20]))).
  - vm_compute. reflexivity.
  - vm_compute. reflexivity.
  - vm_compute. reflexivity.
  - apply Permutation_sym, Permutation_rev.
Defined.

(** ** The whole of [on_generate] *)

Section Generate.

Variable float_of_str : string -> option float.
Variable str_of_float : float -> string.


(** The thicknesses build works with are the fields of the selected type,
    converted in order. *)
Lemma gather_layers_fields gui ts :
  mapM float_of_str (thickness_fields gui) = Some ts ->
  exists layers, gather_layers float_of_str gui = Ok layers /\
    layer_thicknesses (pavement_type_var gui) layers = Ok ts.
Proof.
  unfold gather_layers, thickness_fields, layer_thicknesses, to_float, getitem.
  destruct (String.eqb _ "Flexible"); [|destruct (String.eqb _ "Rigid")]; cbn;
    intros H;
    repeat (destruct (float_of_str _); [|by simplify_option_eq]);
    simplify_option_eq; unfold mbind, result_bind, mret, result_ret;
    eexists; (split; [done|]);
    by repeat (rewrite lookup_insert_eq || rewrite lookup_insert_ne by done).
Qed.

Lemma gather_layers_same gui1 gui2 :
  pavement_type_var gui1 = pavement_type_var gui2 ->
  thickness_fields gui1 = thickness_fields gui2 ->
  gather_layers float_of_str gui1 = gather_layers float_of_str gui2.
Proof.
  unfold gather_layers, thickness_fields. intros <-.
  destruct (String.eqb _ "Flexible"); [|destruct (String.eqb _ "Rigid")];
    by intros [= -> -> -> ->] || by intros [= -> -> ->] || by intros [= -> ->].
Qed.


(** X15.  [on_generate] changes at most one file, the one at the path the
    dialog returned: either the files are as they were, or a path was
    chosen and they differ from before at that path only. *)
Theorem on_generate_touches_one_path gui asksaveasfilename w :
  let w' := on_generate float_of_str str_of_float gui asksaveasfilename w in
  files w' = files w \/
  (asksaveasfilename <> "" /\
   exists text, files w' = <[asksaveasfilename := text]> (files w)).
Proof.
  unfold on_generate.
  destruct (known_type (pavement_type_var gui)); cbn [negb]; [|by left].
  destruct (gather_layers float_of_str gui) as [layers|[]]; try by left.
  destruct (generate_pavement_nodes _ layers) as [[[nodes cols] rows]|]; [|by left].
  destruct (String.eqb asksaveasfilename "") eqn:E; [by left|].
  right. apply String.eqb_neq in E. split; [done|]. by eexists.
Qed.

(** X16.  When the type is one of the three tags and every field of that
    type converts, but the user cancels the save dialog, [on_generate] shows
    the cancel notice and nothing else: no file is written and nothing is
    plotted. *)
Theorem on_generate_cancelled gui w ts :
  known_type (pavement_type_var gui) = true ->
  mapM float_of_str (thickness_fields gui) = Some ts ->
  on_generate float_of_str str_of_float gui "" w
  = emit (showinfo "Canceled" "File save canceled.") w.
Proof.
  intros Hk (layers & Hl & Hts)%gather_layers_fields. unfold on_generate.
  by rewrite Hk, Hl, (generate_pavement_nodes_eq _ _ _ Hts).
Qed.


(** X18.  [on_generate] reads the selected type and the fields of that type
    only: two forms with the same type and the same text in those fields
    have the same effect, whatever the fields of the other types hold. *)
Theorem other_fields_ignored gui1 gui2 asksaveasfilename w :
  pavement_type_var gui1 = pavement_type_var gui2 ->
  thickness_fields gui1 = thickness_fields gui2 ->
  on_generate float_of_str str_of_float gui1 asksaveasfilename w
  = on_generate float_of_str str_of_float gui2 asksaveasfilename w.
Proof.
  intros Hp Hf. unfold on_generate. by rewrite (gather_layers_same _ _ Hp Hf), Hp.
Qed.

End Generate.

(** X16 on the form as the program starts it. *)
Lemma on_generate_cancelled_witness :
  on_generate demo_float_of_str demo_str_of_float initial_form "" no_world
  = emit (showinfo "Canceled" "File save canceled.") no_world.
Proof.
  apply (on_generate_cancelled demo_float_of_str demo_str_of_float initial_form no_world
           [0.06; 0.08; 0.20; 0.20]).
  - reflexivity.
  - vm_compute. reflexivity.
Defined.


(** X18 on two forms that differ in the fields of the Rigid type. *)
Lemma other_fields_ignored_witness :
  on_generate demo_float_of_str demo_str_of_float initial_form "nodes.txt" no_world
  = on_generate demo_float_of_str demo_str_of_float
      {| pavement_type_var := "Flexible"; surface_var := "0.06"; binder_var := "0.08";
         base_var := "0.20"; subbase_var := "0.20"; rigid_slab_var := "abc";
         rigid_subbase_var := ""; asphalt_var := "0.08"; ctb_var := "0.20";
         semirigid_subbase_var := "0.20" |} "nodes.txt" no_world.
Proof.
  apply (other_fields_ignored demo_float_of_str demo_str_of_float).
  - reflexivity.
  - reflexivity.
Defined.

(** ** The pipeline, end to end *)

Section EndToEnd.

Variable float_of_str : string -> option float.
Variable str_of_float : float -> string.




End EndToEnd.


(** ** The form *)

Lemma known_type_cases pt :
  known_type pt = true -> pt = "Flexible" \/ pt = "Rigid" \/ pt = "Semi-Rigid".
Proof.
  unfold known_type. rewrite !orb_true_iff, !String.eqb_eq. tauto.
Qed.

(** X21.  After [on_pavement_change], whatever was shown before, a widget
    is shown exactly when it belongs to the list of the selected type; with
    a type that is none of the three tags, none of the eighteen widgets is
    shown. *)
Theorem on_pavement_change_shows_selected gui gridded w :
  on_pavement_change gui gridded w
  = bool_decide (w ∈ selected_widgets (pavement_type_var gui)).
Proof.
  unfold on_pavement_change, selected_widgets.
  destruct (String.eqb _ "Flexible"); [|destruct (String.eqb _ "Rigid");
    [|destruct (String.eqb _ "Semi-Rigid")]];
    destruct w; vm_compute; reflexivity.
Qed.

(** X22.  For each of the three types, the entries [on_pavement_change]
    leaves on the form are the entries of the variables [on_generate]
    converts for that type, in the same order: the user sees every field
    that is read and no field that is not. *)
Theorem shown_entries_are_read gui gridded :
  known_type (pavement_type_var gui) = true ->
  shown_fields gui (on_pavement_change gui gridded) = thickness_fields gui.
Proof.
  intros Hk. unfold shown_fields, thickness_fields.
  assert (E : filter (fun w => on_pavement_change gui gridded w = true) all_widgets
    = if String.eqb (pavement_type_var gui) "Flexible" then flexible_widgets
      else if String.eqb (pavement_type_var gui) "Rigid" then rigid_widgets
      else semirigid_widgets).
  { unfold on_pavement_change.
    destruct (known_type_cases _ Hk) as [-> | [-> | ->]]; vm_compute; reflexivity. }
  rewrite E.
  destruct (String.eqb _ "Flexible"); [|destruct (String.eqb _ "Rigid")]; reflexivity.
Qed.

(** X22 on the form as the program starts it, every widget on the grid. *)
Lemma shown_entries_are_read_witness :
  shown_fields initial_form (on_pavement_change initial_form (fun _ => true))
  = thickness_fields initial_form.
Proof.
  apply (shown_entries_are_read initial_form (fun _ => true)).
  reflexivity.
Defined.

(** ** The plot *)

Lemma column_coordinates x y_coords :
  map (fun p : node => fst (fst p)) (map (fun y => (x, y, 0.0)) y_coords)
  = replicate (length y_coords) x /\
  map (fun p : node => snd (fst p)) (map (fun y => (x, y, 0.0)) y_coords) = y_coords.
Proof.
  induction y_coords as [|y ys [IH1 IH2]]; [done|]. cbn. by rewrite IH1, IH2.
Qed.

Lemma row_coordinates y xs :
  map (fun p : node => fst (fst p)) (map (fun x => (x, y, 0.0)) xs) = xs /\
  map (fun p : node => snd (fst p)) (map (fun x => (x, y, 0.0)) xs)
  = replicate (length xs) y.
Proof.
  induction xs as [|x xs [IH1 IH2]]; [done|]. cbn. by rewrite IH1, IH2.
Qed.

Section Plot.

Variable format_2f : float -> string.

(** X23.  What [plot_pavement] draws for the result of build, in whatever
    order [iteration] the set hands out its nodes: first one line per
    station, vertical (the same x at every point) and running through the
    whole depth sequence; then one line per depth, horizontal (the same y
    at every point) and running through the six stations; then one label
    per node of the set, at that node.  Depths that coincide are drawn
    again, but labelled once. *)
Theorem plot_of_generated pt layers ts nodes cols rows iteration :
  layer_thicknesses pt layers = Ok ts ->
  generate_pavement_nodes pt layers = Ok (nodes, cols, rows) ->
  Permutation iteration nodes ->
  let y_coords := build_y_coords ts in
  exists labels,
    plot_pavement_body format_2f iteration cols rows =
    ([plt_figure] ++
     map (fun x => plt_plot (replicate (length y_coords) x) y_coords "o") X_COORDS ++
     map (fun y => plt_plot X_COORDS (replicate 6 y) "o") y_coords ++
     labels ++
     [plt_title "Pavement Cross-Section Nodes"; plt_xlabel "X (m)";
      plt_ylabel "Y (m, negative down)"; plt_invert_yaxis; plt_axis "equal";
      plt_grid true; plt_show])%list /\
    Forall2 (fun label p => exists text,
               label = plt_annotate text (fst (fst p), snd (fst p)) (3, 3)%Z "offset points" 8%Z)
      labels iteration /\
    length labels = length nodes /\
    (length labels <= 6 * length y_coords)%nat.
Proof.
  intros Hts Hg Hit y_coords. destruct (generate_inv _ _ _ _ _ _ Hts Hg) as (-> & -> & ->).
  fold y_coords. eexists. split; [|split; [|split]].
  - assert (Hc : map (fun col => plt_plot (map (fun p : node => fst (fst p)) col)
                               (map (fun p : node => snd (fst p)) col) "o")
                   (build_col_lines y_coords)
                 = map (fun x => plt_plot (replicate (length y_coords) x) y_coords "o") X_COORDS).
    { unfold build_col_lines. rewrite map_map. apply map_ext. intros x.
      by destruct (column_coordinates x y_coords) as [-> ->]. }
    assert (Hr : map (fun row => plt_plot (map (fun p : node => fst (fst p)) row)
                               (map (fun p : node => snd (fst p)) row) "o")
                   (build_row_lines y_coords)
                 = map (fun y => plt_plot X_COORDS (replicate 6 y) "o") y_coords).
    { unfold build_row_lines. rewrite map_map. apply map_ext. intros y.
      by destruct (row_coordinates y X_COORDS) as [-> ->]. }
    unfold plot_pavement_body. rewrite Hc, Hr. reflexivity.
  - clear. induction iteration as [|[[x y] z] l IH]; cbn [map]; constructor; [|done].
    by eexists.
  - by rewrite length_map, (Permutation_length Hit).
  - rewrite length_map, (Permutation_length Hit). apply build_nodes_length.
Qed.

End Plot.

(** X23 on the defaults of the Flexible type, the set handing out its
    elements in reverse order of insertion. *)
Lemma plot_of_generated_witness :
  let y_coords := build_y_coords [0.06; 0.08; 0.20; 0.20] in
  let nodes := build_nodes y_coords in
  exists labels,
    plot_pavement_body demo_str_of_float (rev nodes)
      (build_col_lines y_coords) (build_row_lines y_coords) =
    ([plt_figure] ++
     map (fun x => plt_plot (replicate (length y_coords) x) y_coords "o") X_COORDS ++
     map (fun y => plt_plot X_COORDS (replicate 6 y) "o") y_coords ++
     labels ++
     [plt_title "Pavement Cross-Section Nodes"; plt_xlabel "X (m)";
      plt_ylabel "Y (m, negative down)"; plt_invert_yaxis; plt_axis "equal";
      plt_grid true; plt_show])%list /\
    Forall2 (fun label p => exists text,
               label = plt_annotate text (fst (fst p), snd (fst p)) (3, 3)%Z "offset points" 8%Z)
      labels (rev nodes) /\
    length labels = length nodes /\
    (length labels <= 6 * length y_coords)%nat.
Proof.
  apply (plot_of_generated demo_str_of_float "Flexible" flexible_defaults
           [0.06; 0.08; 0.20; 0.20]).
  - vm_compute. reflexivity.
  - vm_compute. reflexivity.
  - apply Permutation_sym, Permutation_rev.
Defined.
